(** * Notes API (task_05): the in-memory note store and the request validator

    A shallow embedding of [src/utils/notesStorage.js] (the module-level
    [notes] array, the [currentId] counter and the [notesStorage] object)
    and of the validation middleware, with the properties of the
    specification stated and proved over it.

    Conventions of the embedding.
    - JavaScript numbers that the store handles are integers (ids, list
      lengths, parsed limits); they are modelled as [Z], exact, i.e. inside
      the safe-integer range of a double.
    - JavaScript strings are modelled as [string], a sequence of
      characters; [String.prototype.toLowerCase] is a parameter of the
      development (class [CaseMapping]): nothing is assumed of it except,
      where a statement says so, that it maps the empty string to itself.
    - [new Date().toISOString()] reads the wall clock.  Each evaluation of
      that expression in the source is an explicit argument of the
      operation that performs it, in evaluation order.
    - The module-level variables are threaded through a small state monad. *)

From Stdlib Require Import ZArith String Ascii DecimalString List Sorted.
From stdpp Require Import base list strings.
Import ListNotations.

Local Open Scope string_scope.
Local Open Scope list_scope.
Local Open Scope Z_scope.

(** ** JavaScript built-ins used by the store *)
Module Js.

(** [String.prototype.toLowerCase]: the case mapping of the JavaScript
    engine.  Its Unicode tables are not part of the sources, so the mapping
    is a parameter of every definition that lowercases a string. *)
Class CaseMapping : Type := toLowerCase : string -> string.

(** [String.prototype.includes(q)]: [q] occurs in [s] at some position. *)
Fixpoint includes (s q : string) : bool :=
  String.prefix q s ||
  match s with
  | EmptyString => false
  | String _ s' => includes s' q
  end.

(** [Array.prototype.includes] on an array of strings. *)
Definition arrayIncludes (l : list string) (x : string) : bool :=
  existsb (String.eqb x) l.

(** [Array.prototype.some]. *)
Definition some {A} (p : A -> bool) (l : list A) : bool := existsb p l.

(** [Array.prototype.findIndex]: the first index whose element satisfies
    [p], or [-1]. *)
Fixpoint findIndexFrom {A} (p : A -> bool) (l : list A) (i : Z) : Z :=
  match l with
  | [] => -1
  | x :: l' => if p x then i else findIndexFrom p l' (i + 1)
  end.

Definition findIndex {A} (p : A -> bool) (l : list A) : Z :=
  findIndexFrom p l 0.

(** [Array.prototype.slice(start, end)] with integer arguments: a negative
    bound counts from the end of the array, and both are clamped to
    [0 .. length]. *)
Definition relativeIndex (len i : Z) : Z :=
  if i <? 0 then Z.max (len + i) 0 else Z.min i len.

Definition slice {A} (l : list A) (start end_ : Z) : list A :=
  let len := Z.of_nat (length l) in
  let k := relativeIndex len start in
  let final := relativeIndex len end_ in
  take (Z.to_nat (final - k)) (drop (Z.to_nat k) l).

(** The values a caller can put in [filters.limit] and [filters.offset]:
    nothing, a number, or a string (a query-string parameter). *)
Inductive value : Type :=
| Undefined
| Num (z : Z)
| Str (s : string).

(** [ToString] of such a value. *)
Definition toString (v : value) : string :=
  match v with
  | Undefined => "undefined"
  | Num z => NilZero.string_of_int (Z.to_int z)
  | Str s => s
  end.

(** White space skipped by [parseInt] (ASCII part of StrWhiteSpaceChar). *)
Definition isWhiteSpace (c : ascii) : bool :=
  let n := nat_of_ascii c in
  (((9 <=? n) && (n <=? 13)) || (n =? 32))%nat.

Fixpoint trimStart (s : string) : string :=
  match s with
  | EmptyString => EmptyString
  | String c s' => if isWhiteSpace c then trimStart s' else s
  end.

(** The value of a character as a digit: 0-9, then a-z or A-Z for 10-35. *)
Definition digitValue (c : ascii) : option Z :=
  let n := nat_of_ascii c in
  if ((48 <=? n) && (n <=? 57))%nat then Some (Z.of_nat n - 48)
  else if ((97 <=? n) && (n <=? 122))%nat then Some (Z.of_nat n - 87)
  else if ((65 <=? n) && (n <=? 90))%nat then Some (Z.of_nat n - 55)
  else None.

(** The longest prefix of radix-[R] digits, read as an integer; [acc] is
    [None] until a first digit was read. *)
Fixpoint parseDigits (R : Z) (s : string) (acc : option Z) : option Z :=
  match s with
  | EmptyString => acc
  | String c s' =>
      match digitValue c with
      | Some d =>
          if d <? R
          then parseDigits R s' (Some (default 0 acc * R + d))
          else acc
      | None => acc
      end
  end.

Definition stripSign (s : string) : Z * string :=
  match s with
  | String "-"%char r => (-1, r)
  | String "+"%char r => (1, r)
  | _ => (1, s)
  end.

Definition stripPrefix (s : string) : Z * string :=
  match s with
  | String "0"%char (String "x"%char r) => (16, r)
  | String "0"%char (String "X"%char r) => (16, r)
  | _ => (10, s)
  end.

(** [parseInt(v)] without a radix argument; [None] is [NaN]. *)
Definition parseInt (v : value) : option Z :=
  let '(sign, s1) := stripSign (trimStart (toString v)) in
  let '(R, s2) := stripPrefix s1 in
  match parseDigits R s2 None with
  | None => None
  | Some m => Some (sign * m)
  end.

(** [x || d] for a number [x]: [NaN] and [0] are falsy. *)
Definition orNum (x : option Z) (d : Z) : Z :=
  match x with
  | Some z => if z =? 0 then d else z
  | None => d
  end.

End Js.


(** ** The store: [src/utils/notesStorage.js] *)
Module NotesStorage.
Import Js.

(** A stored note.  [dueDate] is [None] when the key is absent, [Some None]
    when it is [null], and [Some (Some d)] for a datetime string. *)
Record Note : Type := {
  id : Z;
  title : string;
  content : string;
  tags : list string;
  dueDate : option (option string);
  isArchived : bool;
  isDone : bool;
  createdAt : string;
  updatedAt : string
}.

(** The payload [create] receives: the output of the create schema (the keys
    [title], [content], [tags] with its default, and [dueDate] if given). *)
Record NoteData : Type := {
  nd_title : string;
  nd_content : string;
  nd_tags : list string;
  nd_dueDate : option (option string)
}.

(** The payload [update] receives: the output of the update schema, where
    every key may be absent ([None]). *)
Record UpdateData : Type := {
  u_title : option string;
  u_content : option string;
  u_tags : option (list string);
  u_dueDate : option (option string);
  u_isArchived : option bool;
  u_isDone : option bool
}.

(** The [filters] argument of [getAll], typed as the store contract has it:
    [q] a string, [tags] an array of strings, [isArchived] and [isDone]
    booleans, each possibly absent ([None]); [limit] and [offset] go through
    [parseInt], so they are kept as raw values. *)
Record Filters : Type := {
  f_q : option string;
  f_tags : option (list string);
  f_isArchived : option bool;
  f_isDone : option bool;
  f_limit : value;
  f_offset : value
}.

(** The object [getAll] returns. *)
Record Page : Type := {
  r_notes : list Note;
  r_total : Z;
  r_limit : Z;
  r_offset : Z;
  r_hasMore : bool
}.

(** The module-level variables [notes] and [currentId]. *)
Record Store : Type := {
  notes : list Note;
  currentId : Z
}.

Definition initial : Store := {| notes := []; currentId := 1 |}.

(** State monad over the module-level variables. *)
Definition M (A : Type) : Type := Store -> A * Store.

Definition ret {A} (a : A) : M A := fun s => (a, s).

Definition bind {A B} (m : M A) (k : A -> M B) : M B :=
  fun s => let '(a, s') := m s in k a s'.

Notation "x <- m ;; k" := (bind m (fun x => k))
  (at level 100, m at next level, right associativity).
Notation "m ;;; k" := (bind m (fun _ => k))
  (at level 100, right associativity).

Definition readNotes : M (list Note) := fun s => (notes s, s).

Definition writeNotes (l : list Note) : M unit :=
  fun s => (tt, {| notes := l; currentId := currentId s |}).

(** [const generateId = () => currentId++]. *)
Definition generateId : M Z :=
  fun s => (currentId s, {| notes := notes s; currentId := currentId s + 1 |}).

(** The four filter predicates of [getAll], as written in the callbacks. *)
Definition matchesQuery {cm : CaseMapping} (query : string) (note : Note)
  : bool :=
  includes (toLowerCase (title note)) query ||
  includes (toLowerCase (content note)) query.

Definition matchesTags (ts : list string) (note : Note) : bool :=
  some (fun tag => arrayIncludes (tags note) tag) ts.

Definition matchesArchived (b : bool) (note : Note) : bool :=
  Bool.eqb (isArchived note) b.

Definition matchesDone (b : bool) (note : Note) : bool :=
  Bool.eqb (isDone note) b.

(** The filtering part of [getAll] (lines 9-35): each [if] either replaces
    [filteredNotes] by a filtered copy or leaves it. *)
Definition applyFilters {cm : CaseMapping} (filters : Filters)
           (all : list Note) : list Note :=
  let filteredNotes := all in
  let filteredNotes :=
    match f_q filters with
    | Some q =>
        if negb (String.eqb q "")
        then List.filter (matchesQuery (toLowerCase q)) filteredNotes
        else filteredNotes
    | None => filteredNotes
    end in
  let filteredNotes :=
    match f_tags filters with
    | Some ts =>
        if 0 <? Z.of_nat (length ts)
        then List.filter (matchesTags ts) filteredNotes
        else filteredNotes
    | None => filteredNotes
    end in
  let filteredNotes :=
    match f_isArchived filters with
    | Some b => List.filter (matchesArchived b) filteredNotes
    | None => filteredNotes
    end in
  let filteredNotes :=
    match f_isDone filters with
    | Some b => List.filter (matchesDone b) filteredNotes
    | None => filteredNotes
    end in
  filteredNotes.

Definition getAll {cm : CaseMapping} (filters : Filters) : M Page :=
  all <- readNotes ;;
  let filteredNotes := applyFilters filters all in
  let limit := orNum (parseInt (f_limit filters)) 10 in
  let offset := orNum (parseInt (f_offset filters)) 0 in
  let total := Z.of_nat (length filteredNotes) in
  let paginatedNotes := slice filteredNotes offset (offset + limit) in
  ret {| r_notes := paginatedNotes;
         r_total := total;
         r_limit := limit;
         r_offset := offset;
         r_hasMore := offset + limit <? total |}.

(** [getAll()] with the default argument [{}]. *)
Definition noFilters : Filters :=
  {| f_q := None; f_tags := None; f_isArchived := None; f_isDone := None;
     f_limit := Undefined; f_offset := Undefined |}.

Definition getById (i : Z) : M (option Note) :=
  all <- readNotes ;;
  ret (List.find (fun note => id note =? i) all).

(** [create]: [createdNow] and [updatedNow] are the results of the two
    evaluations of [new Date().toISOString()] on lines 63 and 64. *)
Definition create (createdNow updatedNow : string) (noteData : NoteData)
  : M Note :=
  newId <- generateId ;;
  let newNote :=
    {| id := newId;
       title := nd_title noteData;
       content := nd_content noteData;
       tags := nd_tags noteData;
       dueDate := nd_dueDate noteData;
       isArchived := false;
       isDone := false;
       createdAt := createdNow;
       updatedAt := updatedNow |} in
  all <- readNotes ;;
  writeNotes (all ++ [newNote]) ;;;
  ret newNote.

(** [{...old, ...updateData, updatedAt: now}]. *)
Definition merge (old : Note) (updateData : UpdateData) (now : string) : Note :=
  {| id := id old;
     title := default (title old) (u_title updateData);
     content := default (content old) (u_content updateData);
     tags := default (tags old) (u_tags updateData);
     dueDate :=
       match u_dueDate updateData with
       | Some d => Some d
       | None => dueDate old
       end;
     isArchived := default (isArchived old) (u_isArchived updateData);
     isDone := default (isDone old) (u_isDone updateData);
     createdAt := createdAt old;
     updatedAt := now |}.

(** [update]: [now] is the clock reading of line 77.  [None] is [null]. *)
Definition update (now : string) (i : Z) (updateData : UpdateData)
  : M (option Note) :=
  all <- readNotes ;;
  let noteIndex := findIndex (fun note => id note =? i) all in
  if noteIndex =? -1 then ret None
  else
    match all !! Z.to_nat noteIndex with
    | Some old =>
        let new := merge old updateData now in
        writeNotes (<[Z.to_nat noteIndex := new]> all) ;;;
        ret (Some new)
    | None => ret None (* not reached: [noteIndex] is an index of [all] *)
    end.

(** [delete]: [splice(noteIndex, 1)] removes one element. *)
Definition delete (i : Z) : M bool :=
  all <- readNotes ;;
  let noteIndex := findIndex (fun note => id note =? i) all in
  if noteIndex =? -1 then ret false
  else
    writeNotes (base.delete (Z.to_nat noteIndex) all) ;;;
    ret true.

(** [{ isArchived: b }] and [{ isDone: b }]. *)
Definition setArchived (b : bool) : UpdateData :=
  {| u_title := None; u_content := None; u_tags := None; u_dueDate := None;
     u_isArchived := Some b; u_isDone := None |}.

Definition setDone (b : bool) : UpdateData :=
  {| u_title := None; u_content := None; u_tags := None; u_dueDate := None;
     u_isArchived := None; u_isDone := Some b |}.

(** The four status operations; [!note] holds exactly for [undefined]. *)
Definition archive (now : string) (i : Z) : M (option Note) :=
  note <- getById i ;;
  match note with
  | None => ret None
  | Some _ => update now i (setArchived true)
  end.

Definition unarchive (now : string) (i : Z) : M (option Note) :=
  note <- getById i ;;
  match note with
  | None => ret None
  | Some _ => update now i (setArchived false)
  end.

Definition markAsDone (now : string) (i : Z) : M (option Note) :=
  note <- getById i ;;
  match note with
  | None => ret None
  | Some _ => update now i (setDone true)
  end.

Definition markAsUndone (now : string) (i : Z) : M (option Note) :=
  note <- getById i ;;
  match note with
  | None => ret None
  | Some _ => update now i (setDone false)
  end.

(** Sequences of calls on the store, as the request handlers issue them one
    after the other; each call carries its arguments and clock readings. *)
Inductive Op : Type :=
| GetAll (filters : Filters)
| GetById (i : Z)
| Create (createdNow updatedNow : string) (noteData : NoteData)
| Update (now : string) (i : Z) (updateData : UpdateData)
| Delete (i : Z)
| Archive (now : string) (i : Z)
| Unarchive (now : string) (i : Z)
| MarkAsDone (now : string) (i : Z)
| MarkAsUndone (now : string) (i : Z).

Inductive Result : Type :=
| Listed (page : Page)
| Found (note : option Note)
| Created (note : Note)
| Updated (note : option Note)
| Deleted (b : bool).

Definition call {cm : CaseMapping} (op : Op) : M Result :=
  match op with
  | GetAll filters => p <- getAll filters ;; ret (Listed p)
  | GetById i => n <- getById i ;; ret (Found n)
  | Create t1 t2 noteData => n <- create t1 t2 noteData ;; ret (Created n)
  | Update now i updateData => n <- update now i updateData ;; ret (Updated n)
  | Delete i => b <- delete i ;; ret (Deleted b)
  | Archive now i => n <- archive now i ;; ret (Updated n)
  | Unarchive now i => n <- unarchive now i ;; ret (Updated n)
  | MarkAsDone now i => n <- markAsDone now i ;; ret (Updated n)
  | MarkAsUndone now i => n <- markAsUndone now i ;; ret (Updated n)
  end.

Fixpoint run {cm : CaseMapping} (ops : list Op) : M (list Result) :=
  match ops with
  | [] => ret []
  | op :: rest => r <- call op ;; rs <- run rest ;; ret (r :: rs)
  end.

(** The ids handed out by the [create] calls of a run, in call order. *)
Definition assignedIds (rs : list Result) : list Z :=
  omap (fun r => match r with Created n => Some (id n) | _ => None end) rs.

(** Every stored id was handed out by the counter already. *)
Definition idsBelowCounter (s : Store) : Prop :=
  Forall (fun note => id note < currentId s) (notes s).

End NotesStorage.


(** ** The validation middleware: [middleware/validation.js] *)
Module Validation.

#[local] Set Warnings "-register-all".

(** A request body as [express.json()] delivers it.  Neither schema has a
    numeric field, so only the integer part of a number is kept. *)
Inductive json : Type :=
| JNull
| JBool (b : bool)
| JNumber (z : Z)
| JString (s : string)
| JArray (items : list json)
| JObject (fields : list (string * json)).

(** The schema builders the two schemas are written with. *)
Inductive StringCheck : Type :=
| Min (n : nat)
| Max (n : nat)
| Datetime.

Inductive Schema : Type :=
| ZString (checks : list StringCheck)
| ZBoolean
| ZArray (element : Schema) (maxLength : option nat)
| ZOptional (inner : Schema)
| ZNullable (inner : Schema)
| ZDefault (inner : Schema) (value : json).

(** [z.object({...})]: the fields in the order they are written. *)
Definition ObjectSchema : Type := list (string * Schema).

Definition noteCreateSchema : ObjectSchema :=
  [ ("title", ZString [Min 1; Max 100]);
    ("content", ZString [Min 1; Max 1000]);
    ("tags",
     ZDefault (ZOptional (ZArray (ZString [Min 1; Max 20]) (Some 10%nat)))
              (JArray []));
    ("dueDate", ZNullable (ZOptional (ZString [Datetime]))) ].

Definition noteUpdateSchema : ObjectSchema :=
  [ ("title", ZOptional (ZString [Min 1; Max 100]));
    ("content", ZOptional (ZString [Min 1; Max 1000]));
    ("tags", ZOptional (ZArray (ZString [Min 1; Max 20]) (Some 10%nat)));
    ("dueDate", ZNullable (ZOptional (ZString [Datetime])));
    ("isArchived", ZOptional ZBoolean);
    ("isDone", ZOptional ZBoolean) ].

(** One entry of the violation list: the path of the failing field and the
    rule it breaks. *)
Inductive PathSeg : Type :=
| Key (k : string)
| Index (i : nat).

Inductive Rule : Type :=
| TooShort
| TooLong
| WrongType
| ExceedsCount
| MalformedDatetime
| RequiredMissing.

Record Violation : Type := {
  path : list PathSeg;
  rule : Rule
}.

Definition under (seg : PathSeg) (v : Violation) : Violation :=
  {| path := seg :: path v; rule := rule v |}.

Fixpoint getField (k : string) (fields : list (string * json)) : option json :=
  match fields with
  | [] => None
  | (k', v) :: rest => if String.eqb k k' then Some v else getField k rest
  end.

(** The violations of the items of an array, each under its index. *)
Fixpoint indexed (i : nat) (ls : list (list Violation)) : list Violation :=
  match ls with
  | [] => []
  | vs :: rest => map (under (Index i)) vs ++ indexed (S i) rest
  end.

Section Parse.

(** The datetime format test of the schema library, not part of the sources. *)
Variable isDatetime : string -> bool.

(** Modelled from the spec: the rule a string check reports when it fails
    (too short, too long, malformed datetime); the checks are part of the
    schema library. *)
Definition checkString (s : string) (c : StringCheck) : option Rule :=
  match c with
  | Min n => if (String.length s <? n)%nat then Some TooShort else None
  | Max n => if (n <? String.length s)%nat then Some TooLong else None
  | Datetime => if isDatetime s then None else Some MalformedDatetime
  end.

Definition here (r : Rule) : Violation := {| path := []; rule := r |}.

(** Modelled from the spec: [schema.parse] belongs to the schema library
    (zod), which is not part of the sources.  Following section 4.1, a value
    is checked against its schema and every violation found is collected,
    each with the path of the failing field and the rule it breaks; the
    second component is the normalized value ([None] for an absent key),
    with the default filled in. *)
Fixpoint parseField (sch : Schema) (input : option json)
  : list Violation * option json :=
  match sch with
  | ZString checks =>
      match input with
      | Some (JString s) =>
          (map here (omap (checkString s) checks), Some (JString s))
      | Some _ => ([here WrongType], None)
      | None => ([here RequiredMissing], None)
      end
  | ZBoolean =>
      match input with
      | Some (JBool b) => ([], Some (JBool b))
      | Some _ => ([here WrongType], None)
      | None => ([here RequiredMissing], None)
      end
  | ZArray element maxLength =>
      match input with
      | Some (JArray items) =>
          let count :=
            match maxLength with
            | Some n => if (n <? length items)%nat then [here ExceedsCount]
                        else []
            | None => []
            end in
          let rs := map (fun v => parseField element (Some v)) items in
          (count ++ indexed 0 (map fst rs), Some (JArray (omap snd rs)))
      | Some _ => ([here WrongType], None)
      | None => ([here RequiredMissing], None)
      end
  | ZOptional inner =>
      match input with
      | None => ([], None)
      | Some _ => parseField inner input
      end
  | ZNullable inner =>
      match input with
      | Some JNull => ([], Some JNull)
      | _ => parseField inner input
      end
  | ZDefault inner value =>
      match input with
      | None => parseField inner (Some value)
      | Some _ => parseField inner input
      end
  end.

(** Modelled from the spec: the object schema of the schema library checks
    every field it declares, each against the value under its key
    ([None] if the key is absent). *)
Definition parseFields (schema : ObjectSchema) (fields : list (string * json))
  : list (string * (list Violation * option json)) :=
  map (fun '(k, sch) => (k, parseField sch (getField k fields))) schema.

(** Modelled from the spec: the violations of all fields, each under the
    key of its field. *)
Definition fieldViolations (rs : list (string * (list Violation * option json)))
  : list Violation :=
  concat (map (fun '(k, r) => map (under (Key k)) (fst r)) rs).

(** Modelled from the spec: the normalized object holds the recognized
    keys that have a value; keys outside the schema are dropped. *)
Definition fieldData (rs : list (string * (list Violation * option json)))
  : list (string * json) :=
  omap (fun '(k, r) => pair k <$> snd r) rs.

(** Modelled from the spec: [schema.parse] of the schema library on an
    object schema.  It returns the normalized object, or throws the list of
    all violations found ([inl]) when there is at least one. *)
Definition parse (schema : ObjectSchema) (body : option json)
  : list Violation + json :=
  match body with
  | Some (JObject fields) =>
      let rs := parseFields schema fields in
      match fieldViolations rs with
      | [] => inr (JObject (fieldData rs))
      | errors => inl errors
      end
  | Some _ => inl [here WrongType]
  | None => inl [here RequiredMissing]
  end.

(** What the middleware does with a request: it either stores the parsed
    data in [req.validatedData] and calls [next()], or answers 400. *)
Inductive Outcome : Type :=
| Next (validatedData : json)
| Status400 (error : string) (details : list Violation).

(** [const validate = (schema) => (req, res, next) => ...] (lines 19-30). *)
Definition validate (schema : ObjectSchema) (body : option json) : Outcome :=
  match parse schema body with
  | inr validatedData => Next validatedData
  | inl errors => Status400 "Validation error" errors
  end.

(** A route [router.post(path, validate(schema), controller)]: the
    controller, which is what touches the store, runs only if the
    middleware called [next()]. *)
Inductive Reply (R : Type) : Type :=
| Handled (r : R)
| BadRequest (error : string) (details : list Violation).

Definition route {R} (schema : ObjectSchema) (controller : json -> NotesStorage.M R)
           (body : option json) : NotesStorage.M (Reply R) :=
  match validate schema body with
  | Next validatedData =>
      NotesStorage.bind (controller validatedData)
                        (fun r => NotesStorage.ret (Handled R r))
  | Status400 error details => NotesStorage.ret (BadRequest R error details)
  end.

(** What it means for a value to violate a field schema at a path, rule by
    rule, in the words of section 4.1. *)
Inductive violates : Schema -> option json -> list PathSeg -> Rule -> Prop :=
| V_string_missing checks :
    violates (ZString checks) None [] RequiredMissing
| V_string_type checks v :
    (forall s, v <> JString s) ->
    violates (ZString checks) (Some v) [] WrongType
| V_too_short checks s n :
    In (Min n) checks -> (String.length s < n)%nat ->
    violates (ZString checks) (Some (JString s)) [] TooShort
| V_too_long checks s n :
    In (Max n) checks -> (n < String.length s)%nat ->
    violates (ZString checks) (Some (JString s)) [] TooLong
| V_datetime checks s :
    In Datetime checks -> isDatetime s = false ->
    violates (ZString checks) (Some (JString s)) [] MalformedDatetime
| V_boolean_missing :
    violates ZBoolean None [] RequiredMissing
| V_boolean_type v :
    (forall b, v <> JBool b) ->
    violates ZBoolean (Some v) [] WrongType
| V_array_missing element maxLength :
    violates (ZArray element maxLength) None [] RequiredMissing
| V_array_type element maxLength v :
    (forall items, v <> JArray items) ->
    violates (ZArray element maxLength) (Some v) [] WrongType
| V_array_count element n items :
    (n < length items)%nat ->
    violates (ZArray element (Some n)) (Some (JArray items)) [] ExceedsCount
| V_array_item element maxLength items i v p r :
    items !! i = Some v -> violates element (Some v) p r ->
    violates (ZArray element maxLength) (Some (JArray items)) (Index i :: p) r
| V_optional inner v p r :
    violates inner (Some v) p r -> violates (ZOptional inner) (Some v) p r
| V_nullable_missing inner p r :
    violates inner None p r -> violates (ZNullable inner) None p r
| V_nullable inner v p r :
    v <> JNull -> violates inner (Some v) p r ->
    violates (ZNullable inner) (Some v) p r
| V_default_missing inner value p r :
    violates inner (Some value) p r -> violates (ZDefault inner value) None p r
| V_default inner value v p r :
    violates inner (Some v) p r ->
    violates (ZDefault inner value) (Some v) p r.

(** ... and for a body to violate an object schema. *)
Inductive violatesObject (schema : ObjectSchema)
  : option json -> list PathSeg -> Rule -> Prop :=
| VO_missing :
    violatesObject schema None [] RequiredMissing
| VO_type v :
    (forall fields, v <> JObject fields) ->
    violatesObject schema (Some v) [] WrongType
| VO_field fields k sch p r :
    In (k, sch) schema -> violates sch (getField k fields) p r ->
    violatesObject schema (Some (JObject fields)) (Key k :: p) r.

(** At most one check of a string schema can fail on a given string. *)
Definition oneFault (checks : list StringCheck) : Prop :=
  forall s, (length (omap (checkString s) checks) <= 1)%nat.

Fixpoint oneFaultPerPath (sch : Schema) : Prop :=
  match sch with
  | ZString checks => oneFault checks
  | ZBoolean => True
  | ZArray element _ => oneFaultPerPath element
  | ZOptional inner | ZNullable inner | ZDefault inner _ => oneFaultPerPath inner
  end.

End Parse.

End Validation.

(** ** The list contract, in the words of the specification *)
Module Contract.
Import Js NotesStorage.

Definition isSubstring (q s : string) : Prop :=
  exists a b, s = (a ++ q ++ b)%string.

(** The [q] filter: the lowercased [q] occurs in the lowercased title or in
    the lowercased content. *)
Definition passesQuery {cm : CaseMapping} (q : string)
           (note : Note) : Prop :=
  isSubstring (toLowerCase q) (toLowerCase (title note)) \/
  isSubstring (toLowerCase q) (toLowerCase (content note)).

(** The [tags] filter: at least one tag in common. *)
Definition sharesTag (ts : list string) (note : Note) : Prop :=
  exists t, In t ts /\ In t (tags note).

(** A note passes every filter that is present, each filter read as the
    specification words it. *)
Definition passesAsStated {cm : CaseMapping} (filters : Filters)
           (note : Note) : Prop :=
  (forall q, f_q filters = Some q -> passesQuery q note) /\
  (forall ts, f_tags filters = Some ts -> sharesTag ts note) /\
  (forall b, f_isArchived filters = Some b -> isArchived note = b) /\
  (forall b, f_isDone filters = Some b -> isDone note = b).

(** The same, with a present but empty tag sequence counted as absent. *)
Definition passes {cm : CaseMapping} (filters : Filters)
           (note : Note) : Prop :=
  (forall q, f_q filters = Some q -> passesQuery q note) /\
  (forall ts, f_tags filters = Some ts -> ts <> [] -> sharesTag ts note) /\
  (forall b, f_isArchived filters = Some b -> isArchived note = b) /\
  (forall b, f_isDone filters = Some b -> isDone note = b).

(** The test each [if] of [getAll] applies to a note, [true] when the [if]
    is not taken. *)
Definition keepQ {cm : CaseMapping} (filters : Filters)
           (note : Note) : bool :=
  match f_q filters with
  | Some q => if negb (String.eqb q "") then matchesQuery (toLowerCase q) note
              else true
  | None => true
  end.

Definition keepTags (filters : Filters) (note : Note) : bool :=
  match f_tags filters with
  | Some ts => if 0 <? Z.of_nat (length ts) then matchesTags ts note else true
  | None => true
  end.

Definition keepArchived (filters : Filters) (note : Note) : bool :=
  match f_isArchived filters with
  | Some b => matchesArchived b note
  | None => true
  end.

Definition keepDone (filters : Filters) (note : Note) : bool :=
  match f_isDone filters with
  | Some b => matchesDone b note
  | None => true
  end.

Definition keep {cm : CaseMapping} (filters : Filters)
           (note : Note) : bool :=
  keepQ filters note && keepTags filters note &&
  keepArchived filters note && keepDone filters note.

Definition withLimit (v : value) (filters : Filters) : Filters :=
  {| f_q := f_q filters; f_tags := f_tags filters;
     f_isArchived := f_isArchived filters; f_isDone := f_isDone filters;
     f_limit := v; f_offset := f_offset filters |}.

Definition withOffset (v : value) (filters : Filters) : Filters :=
  {| f_q := f_q filters; f_tags := f_tags filters;
     f_isArchived := f_isArchived filters; f_isDone := f_isDone filters;
     f_limit := f_limit filters; f_offset := v |}.

Definition withTags (ts : option (list string)) (filters : Filters) : Filters :=
  {| f_q := f_q filters; f_tags := ts;
     f_isArchived := f_isArchived filters; f_isDone := f_isDone filters;
     f_limit := f_limit filters; f_offset := f_offset filters |}.

End Contract.

(** ** Sample data for the concrete evaluations *)
Module Sample.
Import Js NotesStorage.

Definition milk : NoteData :=
  {| nd_title := "Buy milk"; nd_content := "2%"; nd_tags := ["errand"];
     nd_dueDate := None |}.

Definition report : NoteData :=
  {| nd_title := "Write REPORT"; nd_content := "has foo inside";
     nd_tags := ["work"; "urgent"]; nd_dueDate := Some None |}.

Definition t0 : string := "2025-03-01T10:00:00.000Z".
Definition t1 : string := "2025-03-01T10:00:00.999Z".
Definition t2 : string := "2025-03-01T10:00:01.000Z".

Definition note1 : Note :=
  {| id := 1; title := "Buy milk"; content := "2%"; tags := ["errand"];
     dueDate := None; isArchived := false; isDone := false;
     createdAt := t0; updatedAt := t0 |}.

Definition note2 : Note :=
  {| id := 2; title := "Write REPORT"; content := "has foo inside";
     tags := ["work"; "urgent"]; dueDate := Some None;
     isArchived := false; isDone := false;
     createdAt := t1; updatedAt := t1 |}.

(** The store after [create(milk)] and [create(report)] on a fresh
    process. *)
Definition twoNotes : Store := {| notes := [note1; note2]; currentId := 3 |}.

(** A case mapping for the concrete evaluations: the built-in on strings of
    ASCII characters, where it lowers the letters A-Z and keeps the rest. *)
Definition lowerChar (c : ascii) : ascii :=
  let n := nat_of_ascii c in
  if ((65 <=? n) && (n <=? 90))%nat then ascii_of_nat (n + 32) else c.

Fixpoint asciiLower (s : string) : string :=
  match s with
  | EmptyString => EmptyString
  | String c s' => String (lowerChar c) (asciiLower s')
  end.

#[export] Instance asciiCase : CaseMapping := asciiLower.

End Sample.

Module SampleBody.
Import Validation.

(** A datetime test for the concrete evaluations: [YYYY-MM-DDThh:mm:ssZ]
    with digits in the numeric positions. *)
Definition isDigit (c : ascii) : bool :=
  let n := nat_of_ascii c in ((48 <=? n) && (n <=? 57))%nat.

Definition isDatetime (s : string) : bool :=
  match list_ascii_of_string s with
  | [y1; y2; y3; y4; d1; m1; m2; d2; a1; a2; t; h1; h2; c1; i1; i2; c2; s1; s2; z] =>
      forallb isDigit [y1; y2; y3; y4; m1; m2; a1; a2; h1; h2; i1; i2; s1; s2] &&
      Ascii.eqb d1 "-" && Ascii.eqb d2 "-" && Ascii.eqb t "T" &&
      Ascii.eqb c1 ":" && Ascii.eqb c2 ":" && Ascii.eqb z "Z"
  | _ => false
  end.

(** [{title: "", tags: ["ok", "", 7], dueDate: "tomorrow"}]: the title is
    too short, [content] is missing, two tags are bad, the date is
    malformed. *)
Definition badCreate : json :=
  JObject [ ("title", JString "");
            ("tags", JArray [JString "ok"; JString ""; JNumber 7]);
            ("dueDate", JString "tomorrow") ].

Definition goodCreate : json :=
  JObject [ ("title", JString "Buy milk"); ("content", JString "2%");
            ("color", JString "red");
            ("dueDate", JString "2025-03-01T10:00:00Z") ].

Definition elevenTags : json :=
  JObject [ ("tags", JArray (map JString
      ["a"; "b"; "c"; "d"; "e"; "f"; "g"; "h"; "i"; "j"; "k"])) ].

End SampleBody.

(** Proof steps shared by the validation lemmas. *)
Ltac invert_violates :=
  match goal with
  | H : Validation.violates _ _ _ _ _ |- _ => inversion H; subst; clear H
  end.

Ltac refute_shape :=
  match goal with
  | Hne : forall _, _ <> _ |- _ => exfalso; by eapply Hne
  | Hne : _ <> _ |- _ => exfalso; by apply Hne
  end.

(** ** The request handlers: [src/controllers/notesController.js] *)
Module Http.
Import Js NotesStorage.

(** A value of [req.query]: a parameter given once is a string, a parameter
    given several times is an array of strings.  Nested objects (bracket
    syntax of the extended query parser) are outside this model. *)
Inductive QueryValue : Type :=
| QStr (s : string)
| QArr (items : list string).

(** The keys of [req.query] that [getAll] reads; [None] is an absent key. *)
Record Query : Type := {
  q_q : option QueryValue;
  q_tags : option QueryValue;
  q_isArchived : option QueryValue;
  q_isDone : option QueryValue;
  q_limit : option QueryValue;
  q_offset : option QueryValue
}.

(** What a handler can catch and pass to [next]. *)
Inductive Thrown : Type :=
| TypeError (what : string)
| NotFoundError (resource : string).

(** [ToString] of a query value; an array is joined with commas. *)
Definition queryToString (v : QueryValue) : string :=
  match v with
  | QStr s => s
  | QArr items => String.concat "," items
  end.

Definition rawValue (v : option QueryValue) : value :=
  match v with
  | None => Undefined
  | Some x => Str (queryToString x)
  end.

(** [note.isArchived === filters.isArchived] when the right-hand side is a
    query value: a boolean is never strictly equal to a string or an array. *)
Definition strictEqBool (b : bool) (v : QueryValue) : bool := false.

(** Lines 9-35 of [getAll] on the query object as the handler passes it.
    [filters.q.toLowerCase()] is evaluated as soon as [q] is truthy;
    [filters.tags.some(...)] is evaluated inside the filter callback, hence
    only if there is a note left to test. *)
Definition filterByQ {cm : CaseMapping} (v : option QueryValue)
           (filteredNotes : list Note)
  : Thrown + list Note :=
  match v with
  | None => inr filteredNotes
  | Some (QStr q) =>
      if negb (String.eqb q "")
      then inr (List.filter (matchesQuery (toLowerCase q)) filteredNotes)
      else inr filteredNotes
  | Some (QArr _) => inl (TypeError "filters.q.toLowerCase is not a function")
  end.

Definition filterByTags (v : option QueryValue) (filteredNotes : list Note)
  : Thrown + list Note :=
  match v with
  | None => inr filteredNotes
  | Some (QStr t) =>
      if negb (String.eqb t "") && (0 <? Z.of_nat (String.length t))
      then match filteredNotes with
           | [] => inr []
           | _ :: _ => inl (TypeError "filters.tags.some is not a function")
           end
      else inr filteredNotes
  | Some (QArr ts) =>
      if 0 <? Z.of_nat (length ts)
      then inr (List.filter (matchesTags ts) filteredNotes)
      else inr filteredNotes
  end.

Definition filterByFlag (flag : Note -> bool) (v : option QueryValue)
           (filteredNotes : list Note) : list Note :=
  match v with
  | None => filteredNotes
  | Some x => List.filter (fun note => strictEqBool (flag note) x) filteredNotes
  end.

Definition applyQuery {cm : CaseMapping} (filters : Query) (all : list Note)
  : Thrown + list Note :=
  match filterByQ (q_q filters) all with
  | inl e => inl e
  | inr filteredNotes =>
      match filterByTags (q_tags filters) filteredNotes with
      | inl e => inl e
      | inr filteredNotes =>
          inr (filterByFlag isDone (q_isDone filters)
                 (filterByFlag isArchived (q_isArchived filters) filteredNotes))
      end
  end.

(** [notesStorage.getAll(req.query)]: either a page or the thrown error. *)
Definition getAllQuery {cm : CaseMapping} (filters : Query)
  : M (Thrown + Page) :=
  all <- readNotes ;;
  match applyQuery filters all with
  | inl e => ret (inl e)
  | inr filteredNotes =>
      let limit := orNum (parseInt (rawValue (q_limit filters))) 10 in
      let offset := orNum (parseInt (rawValue (q_offset filters))) 0 in
      let total := Z.of_nat (length filteredNotes) in
      let paginatedNotes := slice filteredNotes offset (offset + limit) in
      ret (inr {| r_notes := paginatedNotes;
                  r_total := total;
                  r_limit := limit;
                  r_offset := offset;
                  r_hasMore := offset + limit <? total |})
  end.

(** The store operations on the result of [parseInt(req.params.id)], which
    may be [NaN] ([None]); [note.id === NaN] holds for no note. *)
Definition sameId (i : option Z) (note : Note) : bool :=
  match i with
  | Some z => id note =? z
  | None => false
  end.

Definition getByIdNum (i : option Z) : M (option Note) :=
  all <- readNotes ;;
  ret (List.find (sameId i) all).

Definition updateNum (now : string) (i : option Z) (updateData : UpdateData)
  : M (option Note) :=
  all <- readNotes ;;
  let noteIndex := findIndex (sameId i) all in
  if noteIndex =? -1 then ret None
  else
    match all !! Z.to_nat noteIndex with
    | Some old =>
        let new := merge old updateData now in
        writeNotes (<[Z.to_nat noteIndex := new]> all) ;;;
        ret (Some new)
    | None => ret None (* not reached: [noteIndex] is an index of [all] *)
    end.

Definition deleteNum (i : option Z) : M bool :=
  all <- readNotes ;;
  let noteIndex := findIndex (sameId i) all in
  if noteIndex =? -1 then ret false
  else
    writeNotes (base.delete (Z.to_nat noteIndex) all) ;;;
    ret true.

Definition archiveNum (now : string) (i : option Z) : M (option Note) :=
  note <- getByIdNum i ;;
  match note with
  | None => ret None
  | Some _ => updateNum now i (setArchived true)
  end.

Definition unarchiveNum (now : string) (i : option Z) : M (option Note) :=
  note <- getByIdNum i ;;
  match note with
  | None => ret None
  | Some _ => updateNum now i (setArchived false)
  end.

(** The body of a [res.json] answer, [success: true] throughout. *)
Inductive Body : Type :=
| ListBody (data : list Note) (total limit offset : Z) (hasMore : bool)
| NoteBody (data : Note).

(** What a handler does with a request: [res.json] (status 200 unless
    [res.status] was called), [res.status(...).send()], or [next(error)]. *)
Inductive Response : Type :=
| Json (status : Z) (body : Body)
| Send (status : Z)
| NextError (error : Thrown).

Definition getAllNotes {cm : CaseMapping} (query : Query) : M Response :=
  r <- getAllQuery query ;;
  match r with
  | inr result =>
      ret (Json 200 (ListBody (r_notes result) (r_total result)
                              (r_limit result) (r_offset result)
                              (r_hasMore result)))
  | inl error => ret (NextError error)
  end.

Definition getNoteById (idParam : string) : M Response :=
  note <- getByIdNum (parseInt (Str idParam)) ;;
  match note with
  | None => ret (NextError (NotFoundError "Note"))
  | Some n => ret (Json 200 (NoteBody n))
  end.

(** [req.validatedData] is what the validation middleware stored. *)
Definition createNote (createdNow updatedNow : string)
           (validatedData : NoteData) : M Response :=
  newNote <- create createdNow updatedNow validatedData ;;
  ret (Json 201 (NoteBody newNote)).

Definition updateNote (now : string) (idParam : string)
           (validatedData : UpdateData) : M Response :=
  updatedNote <- updateNum now (parseInt (Str idParam)) validatedData ;;
  match updatedNote with
  | None => ret (NextError (NotFoundError "Note"))
  | Some n => ret (Json 200 (NoteBody n))
  end.

Definition deleteNote (idParam : string) : M Response :=
  deleted <- deleteNum (parseInt (Str idParam)) ;;
  if (deleted : bool) then ret (Send 204)
  else ret (NextError (NotFoundError "Note")).

Definition archiveNote (now : string) (idParam : string) : M Response :=
  archivedNote <- archiveNum now (parseInt (Str idParam)) ;;
  match archivedNote with
  | None => ret (NextError (NotFoundError "Note"))
  | Some n => ret (Json 200 (NoteBody n))
  end.

Definition unarchiveNote (now : string) (idParam : string) : M Response :=
  unarchivedNote <- unarchiveNum now (parseInt (Str idParam)) ;;
  match unarchivedNote with
  | None => ret (NextError (NotFoundError "Note"))
  | Some n => ret (Json 200 (NoteBody n))
  end.

(** A query whose values have the types the store expects: [q] a string,
    [tags] an array, no flag filter; and the filters it stands for. *)
Definition wellTyped (query : Query) : Prop :=
  (forall l, q_q query <> Some (QArr l)) /\
  (forall t, q_tags query = Some (QStr t) -> t = "") /\
  q_isArchived query = None /\ q_isDone query = None.

Definition typedFilters (query : Query) : Filters :=
  {| f_q := match q_q query with Some (QStr q) => Some q | _ => None end;
     f_tags := match q_tags query with Some (QArr ts) => Some ts | _ => None end;
     f_isArchived := None;
     f_isDone := None;
     f_limit := rawValue (q_limit query);
     f_offset := rawValue (q_offset query) |}.

End Http.

(** ** Store invariants and payload algebra used by the further properties *)
Module Invariant.
Import Js NotesStorage.

(** No two stored notes have the same id. *)
Definition idsUnique (s : Store) : Prop := NoDup (map id (notes s)).

(** The shape of every store the process can be in: ids are unique,
    positive and below the counter, which starts at 1. *)
Definition wellFormed (s : Store) : Prop :=
  idsUnique s /\ 1 <= currentId s /\
  Forall (fun note => 1 <= id note < currentId s) (notes s).

(** [{...u1, ...u2}]: the keys of [u2] win. *)
Definition overlay (u1 u2 : UpdateData) : UpdateData :=
  {| u_title := match u_title u2 with Some x => Some x | None => u_title u1 end;
     u_content :=
       match u_content u2 with Some x => Some x | None => u_content u1 end;
     u_tags := match u_tags u2 with Some x => Some x | None => u_tags u1 end;
     u_dueDate :=
       match u_dueDate u2 with Some x => Some x | None => u_dueDate u1 end;
     u_isArchived :=
       match u_isArchived u2 with Some x => Some x | None => u_isArchived u1 end;
     u_isDone :=
       match u_isDone u2 with Some x => Some x | None => u_isDone u1 end |}.

Definition withArchived (b : option bool) (filters : Filters) : Filters :=
  {| f_q := f_q filters; f_tags := f_tags filters;
     f_isArchived := b; f_isDone := f_isDone filters;
     f_limit := f_limit filters; f_offset := f_offset filters |}.

Definition withQ (q : option string) (filters : Filters) : Filters :=
  {| f_q := q; f_tags := f_tags filters;
     f_isArchived := f_isArchived filters; f_isDone := f_isDone filters;
     f_limit := f_limit filters; f_offset := f_offset filters |}.

(** The notes [getAll] selects before pagination. *)
Definition matching {cm : CaseMapping} (filters : Filters) (s : Store)
  : list Note :=
  applyFilters filters (notes s).

End Invariant.

(** ** The answers of the handlers, for stating their properties *)
Module Answer.
Import Js NotesStorage Http.

(** The 200 answer that carries a page. *)
Definition listed (page : Page) : Response :=
  Json 200 (ListBody (r_notes page) (r_total page) (r_limit page)
                     (r_offset page) (r_hasMore page)).

(** The answer to a request for one note: the note, or not-found. *)
Definition noteOrNotFound (r : option Note) : Response :=
  match r with
  | Some n => Json 200 (NoteBody n)
  | None => NextError (NotFoundError "Note")
  end.

Definition deletedOrNotFound (deleted : bool) : Response :=
  if deleted then Send 204 else NextError (NotFoundError "Note").

Definition archivedSample : Store :=
  snd (archive Sample.t2 1 Sample.twoNotes).

Definition queryNone : Query :=
  {| q_q := None; q_tags := None; q_isArchived := None; q_isDone := None;
     q_limit := None; q_offset := None |}.

Definition queryArchived (v : string) : Query :=
  {| q_q := None; q_tags := None; q_isArchived := Some (QStr v);
     q_isDone := None; q_limit := None; q_offset := None |}.

Definition queryTags (v : QueryValue) : Query :=
  {| q_q := None; q_tags := Some v; q_isArchived := None; q_isDone := None;
     q_limit := None; q_offset := None |}.

End Answer.
(** * Properties *)

(** ** Facts about the built-ins *)
Section JsFacts.
Import Js.

Lemma append_String (c : ascii) (a b : string) :
  (String c a ++ b)%string = String c (a ++ b)%string.
Proof. reflexivity. Qed.

Lemma append_Empty (b : string) : (EmptyString ++ b)%string = b.
Proof. reflexivity. Qed.

Lemma prefix_append (q s : string) :
  String.prefix q s = true <-> exists b, s = (q ++ b)%string.
Proof.
  revert s. induction q as [|c q IH]; intros s.
  - split; [intros _; exists s; reflexivity | intros _; destruct s; reflexivity].
  - destruct s as [|d s]; simpl.
    + split; [discriminate | intros [b Hb]; discriminate].
    + destruct (ascii_dec c d) as [->|Hne].
      * rewrite IH. split; intros [b Hb]; exists b.
        -- rewrite append_String. congruence.
        -- rewrite append_String in Hb. congruence.
      * split; [discriminate|].
        intros [b Hb]. rewrite append_String in Hb. congruence.
Qed.

Lemma includes_Empty (q : string) :
  includes EmptyString q = String.prefix q EmptyString || false.
Proof. reflexivity. Qed.

Lemma includes_String (c : ascii) (s q : string) :
  includes (String c s) q = String.prefix q (String c s) || includes s q.
Proof. reflexivity. Qed.

(** [includes s q] holds exactly when [q] is a substring of [s]. *)
Lemma includes_substring (s q : string) :
  includes s q = true <-> exists a b, s = (a ++ q ++ b)%string.
Proof.
  induction s as [|c s IH]; [rewrite includes_Empty | rewrite includes_String].
  - rewrite orb_false_r, prefix_append. split.
    + intros [b Hb]. exists EmptyString, b. exact Hb.
    + intros [a [b Hb]]. destruct a.
      * rewrite append_Empty in Hb. eauto.
      * rewrite append_String in Hb. discriminate.
  - rewrite orb_true_iff, prefix_append, IH. split.
    + intros [[b Hb] | [a [b Hb]]].
      * exists EmptyString, b. exact Hb.
      * exists (String c a), b. rewrite append_String. congruence.
    + intros [a [b Hb]]. destruct a as [|d a].
      * left. rewrite append_Empty in Hb. eauto.
      * right. rewrite append_String in Hb. exists a, b. congruence.
Qed.

Lemma arrayIncludes_In (l : list string) (x : string) :
  arrayIncludes l x = true <-> In x l.
Proof.
  unfold arrayIncludes. rewrite existsb_exists. split.
  - intros [y [Hy Heq]]. apply String.eqb_eq in Heq. congruence.
  - intros Hx. exists x. split; [exact Hx | apply String.eqb_refl].
Qed.

Lemma findIndexFrom_none {A} (p : A -> bool) (l : list A) (i : Z) :
  0 <= i -> (findIndexFrom p l i = -1 <-> List.find p l = None).
Proof.
  revert i. induction l as [|x l IH]; intros i Hi; simpl.
  - tauto.
  - destruct (p x).
    + split; [lia | discriminate].
    + apply IH. lia.
Qed.

Lemma findIndexFrom_some {A} (p : A -> bool) (l : list A) (i : Z) :
  0 <= i -> findIndexFrom p l i <> -1 ->
  exists k x,
    findIndexFrom p l i = i + Z.of_nat k /\ l !! k = Some x /\
    List.find p l = Some x /\ p x = true /\
    (forall j y, (j < k)%nat -> l !! j = Some y -> p y = false).
Proof.
  revert i. induction l as [|x l IH]; intros i Hi; simpl.
  - congruence.
  - destruct (p x) eqn:Hp.
    + intros _. exists 0%nat, x. repeat split; try done; try lia.
    + intros Hne. destruct (IH (i + 1) ltac:(lia) Hne)
        as (k & y & Hk & Hl & Hf & Hy & Hfirst).
      exists (S k), y. repeat split; try done; try lia.
      intros [|j] z Hj Hz; simpl in Hz.
      * congruence.
      * apply (Hfirst j); [lia | done].
Qed.

Lemma findIndex_none {A} (p : A -> bool) (l : list A) :
  findIndex p l = -1 <-> List.find p l = None.
Proof. apply findIndexFrom_none. lia. Qed.

Lemma findIndex_some {A} (p : A -> bool) (l : list A) :
  findIndex p l <> -1 ->
  exists k x,
    Z.to_nat (findIndex p l) = k /\ l !! k = Some x /\
    List.find p l = Some x /\ p x = true /\
    (forall j y, (j < k)%nat -> l !! j = Some y -> p y = false).
Proof.
  intros Hne. destruct (findIndexFrom_some p l 0 ltac:(lia) Hne)
    as (k & x & Hk & Hrest).
  exists k, x. split; [|exact Hrest]. unfold findIndex. lia.
Qed.

(** [slice] returns a contiguous part of the array. *)
Lemma slice_sublist {A} (l : list A) (a b : Z) (x : A) :
  In x (slice l a b) -> In x l.
Proof.
  unfold slice. intros Hx. apply list_elem_of_In.
  apply list_elem_of_In in Hx.
  apply elem_of_take in Hx. destruct Hx as (j & Hj & _).
  rewrite lookup_drop in Hj. apply list_elem_of_lookup. eauto.
Qed.

Example parseInt_samples :
  map parseInt
    [Undefined; Num 25; Num (-3); Str " 42px"; Str "abc"; Str "-7";
     Str "0x1f"; Str ""; Str "+"; Str "0"; Str "-0"; Str "12.9"]
  = [None; Some 25; Some (-3); Some 42; None; Some (-7); Some 31; None; None;
     Some 0; Some 0; Some 12].
Proof. reflexivity. Qed.

Example slice_samples :
  (slice [1; 2; 3; 4] 1 3, slice [1; 2; 3; 4] 0 (-1), slice [1; 2; 3; 4] 2 12,
   slice [1; 2; 3; 4] (-3) 3, slice [1; 2; 3; 4] 3 1)
  = ([2; 3], [1; 2; 3], [3; 4], [2; 3], []).
Proof. reflexivity. Qed.

End JsFacts.

(** ** Listing: filters and pagination *)
Section Listing.
Import Js NotesStorage Contract.

Context {cm : CaseMapping}.

Lemma twoNotes_eq :
  snd (run [Create Sample.t0 Sample.t0 Sample.milk;
            Create Sample.t1 Sample.t1 Sample.report] initial)
  = Sample.twoNotes.
Proof. reflexivity. Qed.

Lemma matchesQuery_passes (q : string) (note : Note) :
  matchesQuery (toLowerCase q) note = true <-> passesQuery q note.
Proof.
  unfold matchesQuery, passesQuery, isSubstring.
  rewrite orb_true_iff, !includes_substring. reflexivity.
Qed.

Lemma matchesTags_shares (ts : list string) (note : Note) :
  matchesTags ts note = true <-> sharesTag ts note.
Proof.
  unfold matchesTags, some, sharesTag. rewrite existsb_exists.
  split; intros [t [Ht Hn]]; exists t; split; try done;
    by apply arrayIncludes_In.
Qed.

Lemma matchesArchived_eq (b : bool) (note : Note) :
  matchesArchived b note = true <-> isArchived note = b.
Proof. unfold matchesArchived. apply Bool.eqb_true_iff. Qed.

Lemma matchesDone_eq (b : bool) (note : Note) :
  matchesDone b note = true <-> isDone note = b.
Proof. unfold matchesDone. apply Bool.eqb_true_iff. Qed.

Lemma filter_filter {A} (p q : A -> bool) (l : list A) :
  List.filter q (List.filter p l) = List.filter (fun x => p x && q x) l.
Proof.
  induction l as [|x l IH]; simpl; [reflexivity|].
  destruct (p x); simpl; [destruct (q x)|]; simpl; congruence.
Qed.

Lemma filter_all {A} (l : list A) : l = List.filter (fun _ => true) l.
Proof. induction l; simpl; congruence. Qed.

Lemma applyFilters_filter (filters : Filters) (l : list Note) :
  applyFilters filters l = List.filter (keep filters) l.
Proof.
  unfold applyFilters, keep, keepQ, keepTags, keepArchived, keepDone.
  destruct (f_q filters) as [q|], (f_tags filters) as [ts|],
    (f_isArchived filters) as [a|], (f_isDone filters) as [d|];
    try destruct (negb (String.eqb q "")); try destruct (0 <? Z.of_nat (length ts));
    rewrite ?filter_filter; try (rewrite (filter_all l) at 1);
    rewrite ?filter_filter;
    apply filter_ext; intros n; simpl;
    rewrite ?andb_assoc, ?andb_true_r, ?andb_true_l; reflexivity.
Qed.

Lemma toLowerCase_empty_substring (s : string) : isSubstring "" s.
Proof. exists EmptyString, s. reflexivity. Qed.

Lemma keep_passes (filters : Filters) (note : Note) :
  toLowerCase "" = "" ->
  (keep filters note = true <-> passes filters note).
Proof.
  intros Hempty.
  unfold keep, passes, keepQ, keepTags, keepArchived, keepDone.
  rewrite !andb_true_iff.
  assert (HQ : match f_q filters with
               | Some q => if negb (String.eqb q "")
                           then matchesQuery (toLowerCase q) note else true
               | None => true
               end = true <-> (forall q, f_q filters = Some q -> passesQuery q note)).
  { destruct (f_q filters) as [q|]; [|split; [intros _ q Hq; discriminate|done]].
    destruct (String.eqb q "") eqn:Hq; simpl.
    - apply String.eqb_eq in Hq. subst q. split; [|done].
      intros _ q [= <-]. left. rewrite Hempty.
      apply toLowerCase_empty_substring.
    - rewrite matchesQuery_passes. split; [intros H q' [= <-]; exact H|eauto]. }
  assert (HT : match f_tags filters with
               | Some ts => if 0 <? Z.of_nat (length ts)
                            then matchesTags ts note else true
               | None => true
               end = true <->
               (forall ts, f_tags filters = Some ts -> ts <> [] -> sharesTag ts note)).
  { destruct (f_tags filters) as [ts|]; [|split; [intros _ q Hq; discriminate|done]].
    destruct ts as [|t ts].
    - simpl. split; [|done]. intros _ ts' [= <-] Hne. congruence.
    - replace (0 <? Z.of_nat (length (t :: ts))) with true
        by (symmetry; apply Z.ltb_lt; simpl; lia).
      rewrite matchesTags_shares.
      split; [intros H ts' [= <-] _; exact H|]. intros H. by apply H. }
  assert (HA : match f_isArchived filters with
               | Some b => matchesArchived b note
               | None => true
               end = true <->
               (forall b, f_isArchived filters = Some b -> isArchived note = b)).
  { destruct (f_isArchived filters) as [b|];
      [|split; [intros _ q Hq; discriminate|done]].
    rewrite matchesArchived_eq. split; [intros H b' [= <-]; exact H|eauto]. }
  assert (HD : match f_isDone filters with
               | Some b => matchesDone b note
               | None => true
               end = true <->
               (forall b, f_isDone filters = Some b -> isDone note = b)).
  { destruct (f_isDone filters) as [b|];
      [|split; [intros _ q Hq; discriminate|done]].
    rewrite matchesDone_eq. split; [intros H b' [= <-]; exact H|eauto]. }
  rewrite HQ, HT, HA, HD. tauto.
Qed.

Lemma getAll_page (filters : Filters) (s : Store) :
  getAll filters s =
  (let matching := List.filter (keep filters) (notes s) in
   let limit := orNum (parseInt (f_limit filters)) 10 in
   let offset := orNum (parseInt (f_offset filters)) 0 in
   {| r_notes := slice matching offset (offset + limit);
      r_total := Z.of_nat (length matching);
      r_limit := limit;
      r_offset := offset;
      r_hasMore := offset + limit <? Z.of_nat (length matching) |}, s).
Proof.
  unfold getAll, bind, readNotes, ret. rewrite applyFilters_filter. reflexivity.
Qed.

(** [total] never depends on [limit] or [offset]. *)
Lemma getAll_total (s : Store) (filters : Filters) :
  r_total (fst (getAll filters s)) =
  Z.of_nat (length (List.filter (keep filters) (notes s))).
Proof. rewrite getAll_page. reflexivity. Qed.

(** C1, as amended: for every case mapping [toLowerCase] that maps the empty
    string to itself (as the built-in does), the notes [getAll] selects are
    exactly the stored notes that pass every filter present, in stored
    order, where a present but empty tag sequence counts as absent; [total]
    counts them, and the returned page is a slice of them. *)
Theorem getAll_filters_conjunction (s : Store) (filters : Filters) :
  toLowerCase "" = "" ->
  exists selects : Note -> bool,
    (forall note, selects note = true <-> passes filters note) /\
    let page := fst (getAll filters s) in
    let matching := List.filter selects (notes s) in
    r_total page = Z.of_nat (length matching) /\
    r_notes page =
      slice matching (r_offset page) (r_offset page + r_limit page) /\
    (forall note, In note matching <-> In note (notes s) /\ passes filters note) /\
    (forall note, In note (r_notes page) ->
                  In note (notes s) /\ passes filters note).
Proof.
  intros Hempty.
  exists (keep filters). split; [intros note; by apply keep_passes|].
  rewrite getAll_page. cbn [fst r_total r_notes r_offset r_limit].
  assert (Hin : forall note, In note (List.filter (keep filters) (notes s)) <->
                             In note (notes s) /\ passes filters note).
  { intros note. rewrite filter_In, (keep_passes filters note Hempty).
    reflexivity. }
  split; [reflexivity|]. split; [reflexivity|]. split; [exact Hin|].
  intros note H. apply Hin. eapply slice_sublist. eassumption.
Qed.

(** C9: a [tags] filter that is present but empty gives exactly the
    result of the same call without a [tags] filter; in particular it
    selects every note that the other filters select, not none. *)
Theorem getAll_empty_tags_ignored (s : Store) (filters : Filters) :
  f_tags filters = Some [] ->
  getAll filters s = getAll (withTags None filters) s /\
  r_total (fst (getAll filters s)) =
    Z.of_nat (length (List.filter
                        (fun note => keepQ filters note &&
                                     keepArchived filters note &&
                                     keepDone filters note)
                        (notes s))).
Proof.
  intros Htags. split.
  - destruct filters as [q ts a d lim off]. cbn in Htags. subst ts.
    reflexivity.
  - rewrite getAll_total. f_equal. f_equal. apply filter_ext. intros note.
    unfold keep, keepTags. rewrite Htags. cbn.
    by rewrite andb_true_r.
Qed.

(** C10: [getAll] leaves the note collection and the counter as they were. *)
Theorem getAll_leaves_store (s : Store) (filters : Filters) :
  snd (getAll filters s) = s /\
  notes (snd (getAll filters s)) = notes s /\
  currentId (snd (getAll filters s)) = currentId s.
Proof. rewrite getAll_page. repeat split. Qed.

(** A limit that parses to 0 is replaced by 10 ([0 || 10]). *)
Lemma getAll_limit_zero (s : Store) (filters : Filters) :
  parseInt (f_limit filters) = Some 0 ->
  getAll filters s = getAll (withLimit (Num 10) filters) s.
Proof.
  intros H. rewrite !getAll_page. unfold withLimit. cbn [f_limit f_offset].
  rewrite H. reflexivity.
Qed.

(** C2, evaluated on the code: [getAll({limit: 0})] on a store of two notes
    returns both notes with [limit] 10; only [total] is as claimed. *)
Theorem getAll_limit_zero_returns_notes :
  fst (getAll (withLimit (Num 0) noFilters) Sample.twoNotes) =
  {| r_notes := [Sample.note1; Sample.note2];
     r_total := 2; r_limit := 10; r_offset := 0; r_hasMore := false |} /\
  fst (getAll (withLimit (Str "0") noFilters) Sample.twoNotes) =
  fst (getAll (withLimit (Num 0) noFilters) Sample.twoNotes).
Proof. split; reflexivity. Qed.

(** C3, as amended: a [limit] that does not parse to a number behaves as
    10 and an [offset] that does not parse to a number as 0; a negative
    [limit] or [offset] is kept as parsed and handed to [slice]; every call
    returns a page. *)
Theorem getAll_limit_offset_fallback (s : Store) (filters : Filters) :
  (parseInt (f_limit filters) = None ->
   getAll filters s = getAll (withLimit (Num 10) filters) s) /\
  (parseInt (f_offset filters) = None ->
   getAll filters s = getAll (withOffset (Num 0) filters) s) /\
  (forall z, parseInt (f_limit filters) = Some z -> z < 0 ->
             r_limit (fst (getAll filters s)) = z) /\
  (forall z, parseInt (f_offset filters) = Some z -> z < 0 ->
             r_offset (fst (getAll filters s)) = z) /\
  (exists page,
     getAll filters s = (page, s) /\
     r_notes page =
       slice (List.filter (keep filters) (notes s))
             (r_offset page) (r_offset page + r_limit page)).
Proof.
  rewrite !getAll_page. unfold withLimit, withOffset.
  cbn [f_limit f_offset fst r_limit r_offset].
  repeat split.
  - intros ->. reflexivity.
  - intros ->. reflexivity.
  - intros z -> Hz. unfold orNum.
    destruct (z =? 0) eqn:E; [apply Z.eqb_eq in E; lia | reflexivity].
  - intros z -> Hz. unfold orNum.
    destruct (z =? 0) eqn:E; [apply Z.eqb_eq in E; lia | reflexivity].
  - eexists. split; reflexivity.
Qed.

End Listing.

(** ** Mutations: create, update and the status operations *)
Section Mutation.
Import Js NotesStorage Contract.

Context {cm : CaseMapping}.

Lemma getById_find (i : Z) (s : Store) :
  getById i s = (List.find (fun note => id note =? i) (notes s), s).
Proof. reflexivity. Qed.

Lemma create_unfold (t1 t2 : string) (d : NoteData) (s : Store) :
  create t1 t2 d s =
  (let n := {| id := currentId s; title := nd_title d;
               content := nd_content d; tags := nd_tags d;
               dueDate := nd_dueDate d; isArchived := false;
               isDone := false; createdAt := t1; updatedAt := t2 |} in
   (n, {| notes := notes s ++ [n]; currentId := currentId s + 1 |})).
Proof. reflexivity. Qed.

Lemma update_missing (now : string) (i : Z) (u : UpdateData) (s : Store) :
  List.find (fun note => id note =? i) (notes s) = None ->
  update now i u s = (None, s).
Proof.
  intros H. apply findIndex_none in H.
  unfold update, bind, readNotes. rewrite H. reflexivity.
Qed.

Lemma update_found (now : string) (i : Z) (u : UpdateData) (s : Store)
      (old : Note) :
  List.find (fun note => id note =? i) (notes s) = Some old ->
  exists k,
    notes s !! k = Some old /\ id old = i /\
    (forall j y, (j < k)%nat -> notes s !! j = Some y -> id y <> i) /\
    update now i u s =
    (Some (merge old u now),
     {| notes := <[k := merge old u now]> (notes s);
        currentId := currentId s |}).
Proof.
  intros H.
  assert (Hne : findIndex (fun note => id note =? i) (notes s) <> -1).
  { rewrite findIndex_none. congruence. }
  destruct (findIndex_some _ _ Hne) as (k & x & Hk & Hl & Hf & Hp & Hfirst).
  assert (x = old) by congruence. subst x.
  exists k. split; [exact Hl|]. split; [by apply Z.eqb_eq in Hp|]. split.
  - intros j y Hj Hy. specialize (Hfirst j y Hj Hy). by apply Z.eqb_neq.
  - unfold update, bind, readNotes.
    destruct (findIndex _ (notes s) =? -1) eqn:E;
      [apply Z.eqb_eq in E; congruence|].
    rewrite Hk, Hl. reflexivity.
Qed.

Lemma update_counter (now : string) (i : Z) (u : UpdateData) (s : Store) :
  currentId (snd (update now i u s)) = currentId s.
Proof.
  destruct (List.find (fun note => id note =? i) (notes s)) as [old|] eqn:Hfind.
  - destruct (update_found now i u s old Hfind) as (k & _ & _ & _ & ->).
    reflexivity.
  - rewrite (update_missing now i u s Hfind). reflexivity.
Qed.

(** The existence check of the status operations agrees with the one
    [update] makes itself. *)
Lemma guarded_update (now : string) (i : Z) (u : UpdateData) (s : Store) :
  bind (getById i)
       (fun note => match note with
                    | None => ret None
                    | Some _ => update now i u
                    end) s
  = update now i u s.
Proof.
  unfold bind. rewrite getById_find.
  destruct (List.find _ (notes s)) eqn:Hfind; [reflexivity|].
  rewrite (update_missing now i u s Hfind). reflexivity.
Qed.

(** C5: [update] on a stored id replaces that note, at its position, by
    the note whose payload-named fields come from the payload, whose
    [updatedAt] is the clock reading and whose other fields are the old
    ones; [id] and [createdAt] never change; every other position and the
    counter are untouched; the new note is returned.  On an id that is
    not stored it returns not-found and leaves the store as it was. *)
Theorem update_changes_named_fields_only
        (now : string) (i : Z) (u : UpdateData) (s : Store) :
  match fst (getById i s) with
  | None => update now i u s = (None, s)
  | Some old =>
      exists (k : nat) (new : Note) (s' : Store),
        update now i u s = (Some new, s') /\
        notes s !! k = Some old /\
        notes s' !! k = Some new /\
        (forall j, j <> k -> notes s' !! j = notes s !! j) /\
        length (notes s') = length (notes s) /\
        currentId s' = currentId s /\
        id new = id old /\
        createdAt new = createdAt old /\
        updatedAt new = now /\
        title new = default (title old) (u_title u) /\
        content new = default (content old) (u_content u) /\
        tags new = default (tags old) (u_tags u) /\
        dueDate new = default (dueDate old) (Some <$> u_dueDate u) /\
        isArchived new = default (isArchived old) (u_isArchived u) /\
        isDone new = default (isDone old) (u_isDone u)
  end.
Proof.
  rewrite getById_find. cbn [fst].
  destruct (List.find _ (notes s)) as [old|] eqn:Hfind.
  - destruct (update_found now i u s old Hfind) as (k & Hk & Hid & _ & Hupd).
    eexists k, (merge old u now), _. split; [exact Hupd|].
    cbn [notes currentId].
    split; [exact Hk|].
    split; [apply list_lookup_insert_eq; by eapply lookup_lt_Some|].
    split; [intros j Hj; by apply list_lookup_insert_ne|].
    split; [apply length_insert|].
    repeat split. simpl. by destruct (u_dueDate u).
  - by apply update_missing.
Qed.

(** C7: each status operation returns what [update] with the single flag
    returns and leaves the store [update] leaves: not-found with the store
    unchanged on a missing id, and otherwise the stored note with that flag
    set and [updatedAt] refreshed, every other field as before. *)
Theorem status_operations_are_updates (now : string) (i : Z) (s : Store) :
  archive now i s = update now i (setArchived true) s /\
  unarchive now i s = update now i (setArchived false) s /\
  markAsDone now i s = update now i (setDone true) s /\
  markAsUndone now i s = update now i (setDone false) s /\
  match fst (getById i s) with
  | None =>
      archive now i s = (None, s) /\ unarchive now i s = (None, s) /\
      markAsDone now i s = (None, s) /\ markAsUndone now i s = (None, s)
  | Some old =>
      let flagged a d :=
        Some {| id := id old; title := title old; content := content old;
                tags := tags old; dueDate := dueDate old;
                isArchived := a; isDone := d;
                createdAt := createdAt old; updatedAt := now |} in
      fst (archive now i s) = flagged true (isDone old) /\
      fst (unarchive now i s) = flagged false (isDone old) /\
      fst (markAsDone now i s) = flagged (isArchived old) true /\
      fst (markAsUndone now i s) = flagged (isArchived old) false
  end.
Proof.
  unfold archive, unarchive, markAsDone, markAsUndone, bind.
  rewrite getById_find. cbn [fst].
  destruct (List.find _ (notes s)) as [old|] eqn:Hfind.
  - repeat split;
      match goal with
      | |- context [update now i ?u s] =>
          destruct (update_found now i u s old Hfind) as (k & _ & _ & _ & ->)
      end; reflexivity.
  - rewrite !(update_missing now i _ s Hfind). repeat split.
Qed.

End Mutation.

(** ** Identifiers and creation *)
Section Identifiers.
Import Js NotesStorage Contract.

Context {cm : CaseMapping}.

Lemma find_app_fresh (i : Z) (l : list Note) (n : Note) :
  Forall (fun note => id note < i) l -> id n = i ->
  List.find (fun note => id note =? i) (l ++ [n]) = Some n.
Proof.
  intros Hl Hn. induction Hl as [|x l Hx Hl IH]; simpl.
  - rewrite Hn, Z.eqb_refl. reflexivity.
  - destruct (id x =? i) eqn:E; [apply Z.eqb_eq in E; lia | exact IH].
Qed.

(** What [create] does for every payload and every store: it returns a
    note (no failure case exists), numbered with the counter, which it
    advances; the flags are [false]; the timestamps are the two clock
    readings; the note is appended; and, when the stored ids are below the
    counter, [getById] on the new id finds the new note. *)
Lemma create_contract (t1 t2 : string) (d : NoteData) (s : Store) :
  let n := fst (create t1 t2 d s) in
  let s' := snd (create t1 t2 d s) in
  id n = currentId s /\ currentId s' = currentId s + 1 /\
  title n = nd_title d /\ content n = nd_content d /\
  tags n = nd_tags d /\ dueDate n = nd_dueDate d /\
  isArchived n = false /\ isDone n = false /\
  createdAt n = t1 /\ updatedAt n = t2 /\
  notes s' = (notes s ++ [n])%list /\
  (idsBelowCounter s -> getById (id n) s' = (Some n, s')).
Proof.
  rewrite create_unfold. cbn [fst snd]. repeat split.
  intros Hinv. rewrite getById_find. cbn [notes id].
  rewrite find_app_fresh; [reflexivity | exact Hinv | reflexivity].
Qed.

(** C4, evaluated on the code: when the clock ticks between the two
    [new Date()] evaluations of [create], the note is stored and found
    again with its flags [false], but [createdAt] and [updatedAt] differ. *)
Theorem create_timestamps_differ_on_tick :
  let n := fst (create Sample.t1 Sample.t2 Sample.milk initial) in
  let s' := snd (create Sample.t1 Sample.t2 Sample.milk initial) in
  id n = 1 /\ currentId s' = 2 /\ notes s' = [n] /\
  fst (getById (id n) s') = Some n /\
  isArchived n = false /\ isDone n = false /\
  createdAt n = "2025-03-01T10:00:00.999Z" /\
  updatedAt n = "2025-03-01T10:00:01.000Z" /\
  createdAt n <> updatedAt n.
Proof. repeat split. discriminate. Qed.

Lemma call_counter (op : Op) (s : Store) :
  match fst (call op s) with
  | Created n => id n = currentId s /\
                 currentId (snd (call op s)) = currentId s + 1
  | _ => currentId (snd (call op s)) = currentId s
  end.
Proof.
  destruct op as [f|i|t1 t2 d|now i u|i|now i|now i|now i|now i];
    cbn [call]; unfold bind, archive, unarchive, markAsDone, markAsUndone;
    rewrite ?guarded_update.
  - rewrite getAll_page. reflexivity.
  - rewrite getById_find. reflexivity.
  - rewrite create_unfold. split; reflexivity.
  - pose proof (update_counter now i u s) as H.
    destruct (update now i u s). exact H.
  - unfold delete, bind, readNotes.
    destruct (findIndex _ _ =? -1); reflexivity.
  - pose proof (update_counter now i (setArchived true) s) as H.
    destruct (update now i _ s). exact H.
  - pose proof (update_counter now i (setArchived false) s) as H.
    destruct (update now i _ s). exact H.
  - pose proof (update_counter now i (setDone true) s) as H.
    destruct (update now i _ s). exact H.
  - pose proof (update_counter now i (setDone false) s) as H.
    destruct (update now i _ s). exact H.
Qed.

Lemma run_cons (op : Op) (rest : list Op) (s : Store) :
  run (op :: rest) s =
  (fst (call op s) :: fst (run rest (snd (call op s))),
   snd (run rest (snd (call op s)))).
Proof.
  cbn [run]. unfold bind, ret. destruct (call op s) as [r s1]. cbn [fst snd].
  destruct (run rest s1). reflexivity.
Qed.

(** C6: in every sequence of store calls, from every store state, the ids
    that the [create] calls assign are strictly increasing, hence pairwise
    distinct, and all lie between the counter before the run (inclusive)
    and the counter after it; deletes in between change nothing of that. *)
Theorem assigned_ids_strictly_increasing (ops : list Op) (s : Store) :
  let ids := assignedIds (fst (run ops s)) in
  StronglySorted Z.lt ids /\ NoDup ids /\
  Forall (fun i => currentId s <= i < currentId (snd (run ops s))) ids /\
  currentId s <= currentId (snd (run ops s)).
Proof.
  revert s. induction ops as [|op rest IH]; intros s.
  - cbn. repeat split; try constructor. lia.
  - rewrite run_cons. cbn [fst snd].
    pose proof (call_counter op s) as Hc.
    specialize (IH (snd (call op s))). cbn zeta in IH.
    destruct IH as (Hsorted & Hnodup & Hrange & Hle).
    set (s1 := snd (call op s)) in *.
    set (ids := assignedIds (fst (run rest s1))) in *.
    destruct (fst (call op s)) as [p|n|n|n|b] eqn:Hr; cbn zeta;
      unfold assignedIds; cbn [omap list_omap]; fold (assignedIds (fst (run rest s1)));
      fold ids.
    3: { destruct Hc as [Hid Hnext].
         assert (Hgt : Forall (Z.lt (id n)) ids).
         { eapply Forall_impl; [exact Hrange|]. cbn. intros; lia. }
         repeat split.
         - constructor; assumption.
         - constructor; [|assumption].
           intros Hin. rewrite Forall_forall in Hgt.
           specialize (Hgt _ Hin). lia.
         - constructor; [lia|].
           eapply Forall_impl; [exact Hrange|]. cbn. intros; lia.
         - lia. }
    all: repeat split; try assumption; try lia;
      (eapply Forall_impl; [exact Hrange|]); cbn; intros; lia.
Qed.

(** Every call keeps the stored ids below the counter, so an id handed out
    by [create] is never the id of a note stored before. *)
Lemma call_keeps_ids_below_counter (op : Op) (s : Store) :
  idsBelowCounter s -> idsBelowCounter (snd (call op s)).
Proof.
  unfold idsBelowCounter. intros Hinv.
  assert (Hupd : forall now i u,
             Forall (fun note => id note < currentId (snd (update now i u s)))
                    (notes (snd (update now i u s)))).
  { intros now i u.
    destruct (List.find (fun note => id note =? i) (notes s)) as [old|] eqn:Hfind.
    - destruct (update_found now i u s old Hfind) as (k & Hk & _ & _ & ->).
      cbn [snd notes currentId]. apply Forall_insert; [exact Hinv|].
      cbn [merge id]. eapply (Forall_lookup_1 _ _ _ _ Hinv Hk).
    - rewrite (update_missing now i u s Hfind). exact Hinv. }
  destruct op as [f|i|t1 t2 d|now i u|i|now i|now i|now i|now i];
    cbn [call]; unfold bind, archive, unarchive, markAsDone, markAsUndone;
    rewrite ?guarded_update.
  - rewrite getAll_page. exact Hinv.
  - rewrite getById_find. exact Hinv.
  - rewrite create_unfold. cbn [snd notes currentId].
    apply Forall_app. split.
    + eapply Forall_impl; [exact Hinv|]. cbn. intros; lia.
    + constructor; [cbn; lia | constructor].
  - specialize (Hupd now i u). destruct (update now i u s). exact Hupd.
  - unfold delete, bind, readNotes.
    destruct (findIndex _ _ =? -1); cbn [snd notes currentId writeNotes ret];
      [exact Hinv|].
    apply Forall_delete. exact Hinv.
  - specialize (Hupd now i (setArchived true)). destruct (update now i _ s). exact Hupd.
  - specialize (Hupd now i (setArchived false)). destruct (update now i _ s). exact Hupd.
  - specialize (Hupd now i (setDone true)). destruct (update now i _ s). exact Hupd.
  - specialize (Hupd now i (setDone false)). destruct (update now i _ s). exact Hupd.
Qed.

Lemma run_keeps_ids_below_counter (ops : list Op) (s : Store) :
  idsBelowCounter s -> idsBelowCounter (snd (run ops s)).
Proof.
  revert s. induction ops as [|op rest IH]; intros s Hinv; [exact Hinv|].
  rewrite run_cons. cbn [snd]. apply IH. by apply call_keeps_ids_below_counter.
Qed.

Lemma initial_ids_below_counter : idsBelowCounter initial.
Proof. constructor. Qed.

(** The end-to-end example of the specification: create, archive, list. *)
Example archive_then_list :
  let s1 := snd (create Sample.t0 Sample.t0 Sample.milk initial) in
  let archived := archive Sample.t1 1 s1 in
  let listed :=
    fst (getAll {| f_q := None; f_tags := None; f_isArchived := Some true;
                   f_isDone := None; f_limit := Undefined;
                   f_offset := Undefined |} (snd archived)) in
  (isArchived <$> fst archived, isDone <$> fst archived,
   id <$> r_notes listed, r_total listed)
  = (Some true, Some false, [1], 1).
Proof. reflexivity. Qed.

Example delete_then_create :
  let rs := fst (run [Create Sample.t0 Sample.t0 Sample.milk; Delete 1;
                      GetById 1; Delete 1;
                      Create Sample.t1 Sample.t1 Sample.report]
                     initial) in
  (assignedIds rs, rs !! 2%nat, rs !! 3%nat)
  = ([1; 2], Some (Found None), Some (Deleted false)).
Proof. reflexivity. Qed.

End Identifiers.

(** ** Validation *)
Section ValidationFacts.
Import Validation.

Example validate_samples :
  validate SampleBody.isDatetime noteCreateSchema (Some SampleBody.badCreate) =
    Status400 "Validation error"
      [ {| path := [Key "title"]; rule := TooShort |};
        {| path := [Key "content"]; rule := RequiredMissing |};
        {| path := [Key "tags"; Index 1]; rule := TooShort |};
        {| path := [Key "tags"; Index 2]; rule := WrongType |};
        {| path := [Key "dueDate"]; rule := MalformedDatetime |} ] /\
  validate SampleBody.isDatetime noteCreateSchema (Some SampleBody.goodCreate) =
    Next (JObject [ ("title", JString "Buy milk"); ("content", JString "2%");
                    ("tags", JArray []);
                    ("dueDate", JString "2025-03-01T10:00:00Z") ]) /\
  validate SampleBody.isDatetime noteUpdateSchema (Some SampleBody.elevenTags) =
    Status400 "Validation error"
      [ {| path := [Key "tags"]; rule := ExceedsCount |} ] /\
  validate SampleBody.isDatetime noteUpdateSchema (Some (JObject [])) =
    Next (JObject []).
Proof. repeat split. Qed.

Lemma indexed_In (i : nat) (ls : list (list Violation)) (v : Violation) :
  In v (indexed i ls) <->
  exists j vs w, ls !! j = Some vs /\ In w vs /\ v = under (Index (i + j)) w.
Proof.
  revert i. induction ls as [|vs rest IH]; intros i; cbn [indexed].
  - split; [intros [] | intros (j & vs & w & Hj & _)]. by destruct j.
  - rewrite in_app_iff, in_map_iff, IH. split.
    + intros [(w & <- & Hw) | (j & vs' & w & Hj & Hw & ->)].
      * exists 0%nat, vs, w. rewrite Nat.add_0_r. done.
      * exists (S j), vs', w. rewrite Nat.add_succ_r. done.
    + intros (j & vs' & w & Hj & Hw & ->). destruct j as [|j]; cbn in Hj.
      * left. exists w. rewrite Nat.add_0_r. split; [done | congruence].
      * right. exists j, vs', w. rewrite Nat.add_succ_r. done.
Qed.

Section ParseFacts.
Variable isDatetime : string -> bool.

Lemma checkString_violates (checks : list StringCheck) (s : string)
      (p : list PathSeg) (r : Rule) :
  In {| path := p; rule := r |} (map here (omap (checkString isDatetime s) checks)) <->
  violates isDatetime (ZString checks) (Some (JString s)) p r.
Proof.
  rewrite in_map_iff. split.
  - intros (r' & [= <- <-] & Hr). apply list_elem_of_In, list_elem_of_omap in Hr.
    destruct Hr as (c & Hc & Hr). apply list_elem_of_In in Hc.
    destruct c as [n|n|]; unfold checkString in Hr.
    + destruct (String.length s <? n)%nat eqn:E; [|discriminate].
      apply Nat.ltb_lt in E. injection Hr as <-. by eapply V_too_short.
    + destruct (n <? String.length s)%nat eqn:E; [|discriminate].
      apply Nat.ltb_lt in E. injection Hr as <-. by eapply V_too_long.
    + destruct (isDatetime s) eqn:E; [discriminate|].
      injection Hr as <-. by eapply V_datetime.
  - intros H. inversion H; subst.
    + exfalso. match goal with Hne : forall _, _ <> _ |- _ => by eapply Hne end.
    + exists TooShort. split; [done|].
      apply list_elem_of_In, list_elem_of_omap. eexists.
      split; [apply list_elem_of_In; eassumption|]. unfold checkString.
      match goal with Hlt : (_ < _)%nat |- _ =>
        apply Nat.ltb_lt in Hlt; by rewrite Hlt end.
    + exists TooLong. split; [done|].
      apply list_elem_of_In, list_elem_of_omap. eexists.
      split; [apply list_elem_of_In; eassumption|]. unfold checkString.
      match goal with Hlt : (_ < _)%nat |- _ =>
        apply Nat.ltb_lt in Hlt; by rewrite Hlt end.
    + exists MalformedDatetime. split; [done|].
      apply list_elem_of_In, list_elem_of_omap. eexists.
      split; [apply list_elem_of_In; eassumption|]. unfold checkString.
      match goal with Hd : isDatetime _ = false |- _ => by rewrite Hd end.
Qed.

Lemma here_In (r0 : Rule) (p : list PathSeg) (r : Rule) :
  In {| path := p; rule := r |} [here r0] <-> p = [] /\ r = r0.
Proof.
  cbn. unfold here. split.
  - intros [[= <- <-] | []]. done.
  - intros [-> ->]. by left.
Qed.

(** The violations [parseField] collects are exactly the violations of the
    value against the schema. *)
Lemma parseField_violates (sch : Schema) :
  forall (input : option json) (p : list PathSeg) (r : Rule),
    In {| path := p; rule := r |} (fst (parseField isDatetime sch input)) <->
    violates isDatetime sch input p r.
Proof.
  induction sch as [checks| |element IH maxLength|inner IH|inner IH|inner IH value];
    intros input p r.
  - destruct input as [v|]; [destruct v|]; cbn [parseField fst];
      try apply checkString_violates; rewrite here_In;
      (split; [intros [-> ->]; by constructor | intros H; by invert_violates]).
  - destruct input as [v|]; [destruct v|]; cbn [parseField fst];
      try (rewrite here_In;
           split; [intros [-> ->]; by constructor | intros H; by invert_violates]).
    split; [intros [] | intros H; invert_violates; refute_shape].
  - destruct input as [v|]; [destruct v|]; cbn [parseField fst];
      try (rewrite here_In;
           split; [intros [-> ->]; by constructor | intros H; by invert_violates]).
    rewrite in_app_iff, indexed_In. split.
    + intros [Hcount | (j & vs & w & Hj & Hw & Heq)].
      * destruct maxLength as [n|]; [|destruct Hcount].
        destruct (n <? length items)%nat eqn:E; [|destruct Hcount].
        apply here_In in Hcount as [-> ->]. apply Nat.ltb_lt in E.
        by constructor.
      * rewrite !list_lookup_fmap in Hj.
        destruct (items !! j) as [v|] eqn:Hv; [|discriminate].
        cbn in Hj. injection Hj as <-. destruct w as [pw rw].
        injection Heq as -> ->. apply IH in Hw.
        by eapply V_array_item.
    + intros H. invert_violates; [refute_shape| |].
      * left. match goal with Hlt : (_ < _)%nat |- _ =>
          apply Nat.ltb_lt in Hlt; rewrite Hlt end. by left.
      * right. match goal with
               | Hi : items !! ?i = Some ?v, Hv : violates _ _ _ ?p0 _ |- _ =>
                   exists i, (fst (parseField isDatetime element (Some v))),
                     {| path := p0; rule := r |};
                   rewrite !list_lookup_fmap, Hi; apply IH in Hv
               end. done.
  - destruct input as [v|]; cbn [parseField fst].
    + rewrite IH. split; [by constructor | intros H; by invert_violates].
    + split; [intros [] | intros H; invert_violates].
  - destruct input as [v|]; [destruct v|]; cbn [parseField fst];
      try (rewrite IH;
           split; [intros H; by constructor | intros H; by invert_violates]).
    split; [intros [] | intros H; invert_violates; refute_shape].
  - destruct input as [v|]; cbn [parseField fst]; rewrite IH;
      (split; [by constructor | intros H; by invert_violates]).
Qed.

Lemma indexed_path_head (i : nat) (ls : list (list Violation))
      (x : list PathSeg) :
  In x (map path (indexed i ls)) ->
  exists j p, x = Index j :: p /\ (i <= j)%nat.
Proof.
  rewrite in_map_iff. intros (v & <- & Hv).
  apply indexed_In in Hv as (j & vs & w & _ & _ & ->).
  exists (i + j)%nat, (path w). split; [reflexivity | lia].
Qed.

Lemma under_paths (seg : PathSeg) (vs : list Violation) :
  map path (map (under seg) vs) = map (cons seg) (map path vs).
Proof. rewrite !map_map. reflexivity. Qed.

Lemma NoDup_map_cons {A} (x : A) (l : list (list A)) :
  NoDup l -> NoDup (map (cons x) l).
Proof.
  intros H. by apply (NoDup_fmap_2 (cons x)).
Qed.

Lemma indexed_paths_distinct (i : nat) (ls : list (list Violation)) :
  Forall (fun vs => NoDup (map path vs)) ls ->
  NoDup (map path (indexed i ls)).
Proof.
  intros H. revert i. induction H as [|vs rest Hvs _ IH]; intros i;
    cbn [indexed]; [constructor|].
  rewrite map_app, under_paths. apply NoDup_app. split; [|split].
  - by apply NoDup_map_cons.
  - intros x Hx Hx'. apply list_elem_of_In in Hx, Hx'.
    apply in_map_iff in Hx as (p & <- & _).
    apply indexed_path_head in Hx' as (j & q & [= <- _] & Hj). lia.
  - apply IH.
Qed.

Lemma parseField_paths_distinct (sch : Schema) :
  oneFaultPerPath isDatetime sch ->
  forall input, NoDup (map path (fst (parseField isDatetime sch input))).
Proof.
  induction sch as [checks| |element IH maxLength|inner IH|inner IH|inner IH value];
    cbn [oneFaultPerPath]; intros Hone input.
  - destruct input as [v|]; [destruct v|]; cbn [parseField fst];
      try (apply NoDup_singleton).
    specialize (Hone s).
    destruct (omap (checkString isDatetime s) checks) as [|a [|b l]];
      cbn in *; [constructor | apply NoDup_singleton | lia].
  - destruct input as [v|]; [destruct v|]; cbn [parseField fst];
      try (apply NoDup_singleton). constructor.
  - destruct input as [v|]; [destruct v|]; cbn [parseField fst];
      try (apply NoDup_singleton).
    rewrite map_app. apply NoDup_app. split; [|split].
    + destruct maxLength as [n|]; [|constructor].
      destruct (n <? length items)%nat; [apply NoDup_singleton | constructor].
    + intros x Hx Hx'. apply list_elem_of_In in Hx, Hx'.
      apply indexed_path_head in Hx' as (j & q & -> & _).
      destruct maxLength as [n|]; [|destruct Hx].
      destruct (n <? length items)%nat; [|destruct Hx].
      destruct Hx as [Hx | []]. discriminate.
    + apply indexed_paths_distinct. rewrite map_map.
      apply Forall_forall. intros vs Hvs. apply list_elem_of_In in Hvs.
      apply in_map_iff in Hvs as (v & <- & _). by apply IH.
  - destruct input as [v|]; cbn [parseField fst]; [by apply IH | constructor].
  - destruct input as [v|]; [destruct v|]; cbn [parseField fst];
      try (by apply IH). constructor.
  - destruct input as [v|]; cbn [parseField fst]; by apply IH.
Qed.

Lemma fieldViolations_In (schema : ObjectSchema) (fields : list (string * json))
      (v : Violation) :
  In v (fieldViolations (parseFields isDatetime schema fields)) <->
  exists k sch w,
    In (k, sch) schema /\
    In w (fst (parseField isDatetime sch (getField k fields))) /\
    v = under (Key k) w.
Proof.
  unfold fieldViolations, parseFields.
  induction schema as [|[k sch] rest IH]; cbn [map concat].
  - split; [intros [] | intros (k & sch & w & [] & _)].
  - rewrite in_app_iff, in_map_iff, IH. split.
    + intros [(w & <- & Hw) | (k' & sch' & w & Hin & Hw & ->)].
      * exists k, sch, w. split; [by left | done].
      * exists k', sch', w. split; [by right | done].
    + intros (k' & sch' & w & [[= <- <-] | Hin] & Hw & ->).
      * left. by exists w.
      * right. by exists k', sch', w.
Qed.

Lemma fieldViolations_paths_distinct (schema : ObjectSchema)
      (fields : list (string * json)) :
  NoDup (map fst schema) ->
  Forall (fun f => oneFaultPerPath isDatetime (snd f)) schema ->
  NoDup (map path (fieldViolations (parseFields isDatetime schema fields))).
Proof.
  intros Hkeys Hone. induction Hone as [|[k sch] rest Hsch _ IH].
  - constructor.
  - cbn [map fst] in Hkeys. apply NoDup_cons in Hkeys as [Hk Hkeys].
    change (fieldViolations (parseFields isDatetime ((k, sch) :: rest) fields))
      with (map (under (Key k))
                (fst (parseField isDatetime sch (getField k fields))) ++
            fieldViolations (parseFields isDatetime rest fields)).
    rewrite map_app, under_paths. apply NoDup_app. split; [|split].
    + apply NoDup_map_cons. by apply parseField_paths_distinct.
    + intros x Hx Hx'. apply list_elem_of_In in Hx, Hx'.
      apply in_map_iff in Hx as (p & <- & _).
      apply in_map_iff in Hx' as (v & Hv & Hin).
      apply fieldViolations_In in Hin as (k' & sch' & w & Hin & _ & ->).
      cbn in Hv. injection Hv as -> _. apply Hk.
      apply list_elem_of_In, in_map_iff. by exists (k, sch').
    + by apply IH.
Qed.

Lemma oneFault_min_max (a b : nat) :
  (a <= S b)%nat -> oneFault isDatetime [Min a; Max b].
Proof.
  intros Hab s. cbn [omap list_omap checkString].
  destruct (String.length s <? a)%nat eqn:Ha;
    destruct (b <? String.length s)%nat eqn:Hb; cbn; try lia.
  apply Nat.ltb_lt in Ha, Hb. lia.
Qed.

Lemma oneFault_datetime : oneFault isDatetime [Datetime].
Proof.
  intros s. cbn [omap list_omap checkString].
  destruct (isDatetime s); cbn; lia.
Qed.

Lemma noteSchemas_one_fault_per_path (schema : ObjectSchema) :
  In schema [noteCreateSchema; noteUpdateSchema] ->
  NoDup (map fst schema) /\
  Forall (fun f => oneFaultPerPath isDatetime (snd f)) schema.
Proof.
  intros [<- | [<- | []]]; (split; [by apply (bool_decide_unpack _)|]);
    unfold noteCreateSchema, noteUpdateSchema;
    repeat (apply List.Forall_cons; [cbn [oneFaultPerPath snd]|]);
    try apply List.Forall_nil;
    first [ apply oneFault_datetime
          | apply oneFault_min_max; lia
          | exact I ].
Qed.

(** The violations [parse] throws, before the test for emptiness. *)
Lemma bodyViolations_violatesObject (schema : ObjectSchema) (body : option json)
      (p : list PathSeg) (r : Rule) :
  In {| path := p; rule := r |}
     match body with
     | Some (JObject fields) =>
         fieldViolations (parseFields isDatetime schema fields)
     | Some _ => [here WrongType]
     | None => [here RequiredMissing]
     end <->
  violatesObject isDatetime schema body p r.
Proof.
  assert (Hfields : forall fields,
    In {| path := p; rule := r |}
       (fieldViolations (parseFields isDatetime schema fields)) <->
    violatesObject isDatetime schema (Some (JObject fields)) p r).
  { intros fields. rewrite fieldViolations_In. split.
    - intros (k & sch & [pw rw] & Hin & Hw & [= -> ->]).
      apply parseField_violates in Hw. by eapply VO_field.
    - intros H. inversion H; subst; [refute_shape|].
      match goal with
      | Hin : In (?k, ?sch) schema, Hv : violates _ _ _ ?p0 _ |- _ =>
          exists k, sch, {| path := p0; rule := r |};
          apply parseField_violates in Hv
      end. done. }
  destruct body as [v|]; [destruct v|]; try apply Hfields;
    rewrite here_In;
    (split; [intros [-> ->]; by constructor | intros H; by inversion H]).
Qed.

End ParseFacts.

(** C8: for each of the two schemas and every body that violates it, the
    middleware answers 400 with a violation list that contains exactly the
    violations of the body (each with the path of the failing field and the
    rule broken, all of them and nothing else), with one entry per failing
    field path; and the request never reaches the controller, so the store
    is left as it was. *)
Theorem validate_reports_every_violation
        (isDatetime : string -> bool) (schema : ObjectSchema)
        (body : option json) :
  In schema [noteCreateSchema; noteUpdateSchema] ->
  (exists p r, violatesObject isDatetime schema body p r) ->
  exists details,
    validate isDatetime schema body = Status400 "Validation error" details /\
    (forall p r, In {| path := p; rule := r |} details <->
                 violatesObject isDatetime schema body p r) /\
    NoDup (map path details) /\
    (forall (R : Type) (controller : json -> NotesStorage.M R)
            (s : NotesStorage.Store),
        route isDatetime schema controller body s =
        (BadRequest R "Validation error" details, s)).
Proof.
  intros Hschema (p0 & r0 & Hviol).
  destruct (noteSchemas_one_fault_per_path isDatetime schema Hschema)
    as [Hkeys Hone].
  pose proof (bodyViolations_violatesObject isDatetime schema body) as Hall.
  set (details := match body with
                  | Some (JObject fields) =>
                      fieldViolations (parseFields isDatetime schema fields)
                  | Some _ => [here WrongType]
                  | None => [here RequiredMissing]
                  end) in *.
  assert (Hparse : parse isDatetime schema body = inl details).
  { apply Hall in Hviol. unfold parse. subst details.
    destruct body as [v|]; [destruct v|]; try reflexivity.
    destruct (fieldViolations _); [destruct Hviol | reflexivity]. }
  exists details. split; [|split; [exact Hall|split]].
  - unfold validate. rewrite Hparse. reflexivity.
  - subst details. destruct body as [v|]; [destruct v|];
      try apply NoDup_singleton.
    by apply fieldViolations_paths_distinct.
  - intros R controller s. unfold route, validate. rewrite Hparse. reflexivity.
Qed.

Lemma validate_reports_every_violation_witness :
  exists details,
    validate SampleBody.isDatetime noteCreateSchema (Some SampleBody.badCreate)
      = Status400 "Validation error" details /\
    length details = 5%nat.
Proof.
  destruct (validate_reports_every_violation SampleBody.isDatetime
              noteCreateSchema (Some SampleBody.badCreate))
    as (details & Hv & _).
  - left. reflexivity.
  - exists [Key "content"], RequiredMissing.
    eapply VO_field; [right; left; reflexivity | constructor].
  - exists details. split; [exact Hv|].
    injection Hv as <-. reflexivity.
Defined.

(** A body without violation is handed on, normalized. *)
Lemma validate_accepts (isDatetime : string -> bool) (schema : ObjectSchema)
      (body : option json) :
  (forall p r, ~ violatesObject isDatetime schema body p r) ->
  exists validatedData, validate isDatetime schema body = Next validatedData.
Proof.
  intros Hnone.
  pose proof (bodyViolations_violatesObject isDatetime schema body) as Hall.
  unfold validate, parse.
  destruct body as [v|]; [destruct v|];
    try (exfalso; eapply Hnone, Hall; by left).
  destruct (fieldViolations _) as [|[p r] l]; [eauto|].
  exfalso. eapply Hnone, Hall. by left.
Qed.

(** The normalized object only has keys of the schema: a validated create
    payload carries no [id], flag or timestamp of its own. *)
Lemma validate_keeps_schema_keys (isDatetime : string -> bool)
      (schema : ObjectSchema) (body : option json)
      (out : list (string * json)) (k : string) (v : json) :
  validate isDatetime schema body = Next (JObject out) ->
  In (k, v) out -> In k (map fst schema).
Proof.
  unfold validate, parse.
  destruct body as [b|]; [destruct b|]; try discriminate.
  destruct (fieldViolations _); [|discriminate].
  intros [= <-] Hin. unfold fieldData, parseFields in Hin.
  apply list_elem_of_In, list_elem_of_omap in Hin as ([k' r] & Hr & Hk).
  apply list_elem_of_In, in_map_iff in Hr as ([k'' sch] & [= <- <-] & Hs).
  destruct (snd _); [|discriminate]. cbn in Hk. injection Hk as <- <-.
  apply in_map_iff. by exists (k'', sch).
Qed.

End ValidationFacts.

(** ** Further properties of the store *)
Section StoreLaws.
Import Js NotesStorage Contract Invariant.

Context {cm : CaseMapping}.

Lemma find_delete_other {A} (p : A -> bool) (l : list A) (k : nat) (x : A) :
  l !! k = Some x -> p x = false ->
  List.find p (base.delete k l) = List.find p l.
Proof.
  revert k. induction l as [|y l IH]; intros k Hk Hx; [done|].
  destruct k as [|k]; cbn in Hk |- *.
  - injection Hk as ->. by rewrite Hx.
  - destruct (p y); [done|]. by eapply IH.
Qed.

Lemma find_none_iff {A} (p : A -> bool) (l : list A) :
  List.find p l = None <-> forall x, In x l -> p x = false.
Proof.
  split; [apply find_none|].
  induction l as [|y l IH]; intros H; [done|]. cbn.
  rewrite (H y (or_introl eq_refl)). apply IH. intros x Hx. apply H. by right.
Qed.

Lemma delete_unfold (i : Z) (s : Store) :
  delete i s =
  (let noteIndex := findIndex (fun note => id note =? i) (notes s) in
   if noteIndex =? -1 then (false, s)
   else (true, {| notes := base.delete (Z.to_nat noteIndex) (notes s);
                  currentId := currentId s |})).
Proof.
  unfold delete, bind, readNotes, writeNotes, ret. cbn zeta.
  by destruct (findIndex _ _ =? -1).
Qed.

Lemma delete_missing (i : Z) (s : Store) :
  List.find (fun note => id note =? i) (notes s) = None ->
  delete i s = (false, s).
Proof.
  intros H. apply findIndex_none in H. rewrite delete_unfold. cbn zeta.
  by rewrite H.
Qed.

Lemma delete_found (i : Z) (s : Store) (n : Note) :
  List.find (fun note => id note =? i) (notes s) = Some n ->
  exists k,
    notes s !! k = Some n /\ id n = i /\
    (forall j y, (j < k)%nat -> notes s !! j = Some y -> id y <> i) /\
    delete i s =
    (true, {| notes := base.delete k (notes s); currentId := currentId s |}).
Proof.
  intros H.
  assert (Hne : findIndex (fun note => id note =? i) (notes s) <> -1).
  { rewrite findIndex_none. congruence. }
  destruct (findIndex_some _ _ Hne) as (k & x & Hk & Hl & Hf & Hp & Hfirst).
  assert (x = n) by congruence. subst x.
  exists k. split; [exact Hl|]. split; [by apply Z.eqb_eq in Hp|]. split.
  - intros j y Hj Hy. specialize (Hfirst j y Hj Hy). by apply Z.eqb_neq.
  - rewrite delete_unfold. cbn zeta.
    destruct (findIndex _ (notes s) =? -1) eqn:E;
      [apply Z.eqb_eq in E; congruence|].
    by rewrite Hk.
Qed.

(** X1: [delete] on an id that is not stored returns [false] and changes
    nothing; on a stored id it returns [true] and removes exactly the first
    note with that id, keeping all other notes in their order and the
    counter as it was. *)
Theorem delete_removes_first_match (i : Z) (s : Store) :
  match fst (getById i s) with
  | None => delete i s = (false, s)
  | Some n =>
      exists k : nat,
        notes s !! k = Some n /\
        (forall j y, (j < k)%nat -> notes s !! j = Some y -> id y <> i) /\
        delete i s =
        (true, {| notes := take k (notes s) ++ drop (S k) (notes s);
                  currentId := currentId s |})
  end.
Proof.
  rewrite getById_find. cbn [fst].
  destruct (List.find _ (notes s)) as [n|] eqn:Hfind.
  - destruct (delete_found i s n Hfind) as (k & Hk & _ & Hfirst & Hdel).
    exists k. split; [exact Hk|]. split; [exact Hfirst|].
    rewrite Hdel. by rewrite delete_take_drop.
  - by apply delete_missing.
Qed.

Lemma unique_id_lookup (l : list Note) (j k : nat) (x y : Note) :
  NoDup (map id l) -> l !! j = Some x -> l !! k = Some y -> id x = id y ->
  j = k.
Proof.
  intros Hnd Hj Hk Hid.
  eapply (NoDup_lookup (map id l) j k (id x)); [exact Hnd| |].
  - change (map id l) with (id <$> l). by rewrite list_lookup_fmap, Hj.
  - change (map id l) with (id <$> l). rewrite list_lookup_fmap, Hk. cbn.
    congruence.
Qed.

Lemma delete_find_none (i : Z) (s : Store) :
  idsUnique s ->
  List.find (fun note => id note =? i) (notes (snd (delete i s))) = None.
Proof.
  intros Huniq.
  destruct (List.find (fun note => id note =? i) (notes s)) as [n|] eqn:Hfind.
  - destruct (delete_found i s n Hfind) as (k & Hk & Hid & _ & ->).
    cbn [snd notes]. apply find_none_iff. intros x Hx.
    apply Z.eqb_neq. intros Hxi.
    apply list_elem_of_In, list_elem_of_lookup in Hx as [j Hj].
    destruct (decide (j < k)%nat) as [Hlt|Hge].
    + rewrite list_lookup_delete_lt in Hj by done.
      assert (j = k) by (eapply unique_id_lookup; eauto; congruence). lia.
    + rewrite list_lookup_delete_ge in Hj by lia.
      assert (S j = k) by (eapply unique_id_lookup; eauto; congruence). lia.
  - rewrite (delete_missing i s Hfind). exact Hfind.
Qed.

(** X2: in a store with unique ids, after [delete(id)] the id is gone:
    [getById(id)] finds nothing and a second [delete(id)] returns [false]
    and changes nothing. *)
Theorem delete_then_lookup_fails (i : Z) (s : Store) :
  idsUnique s ->
  let s' := snd (delete i s) in
  getById i s' = (None, s') /\ delete i s' = (false, s').
Proof.
  intros Huniq. cbn zeta.
  pose proof (delete_find_none i s Huniq) as Hnone.
  split.
  - rewrite getById_find. by rewrite Hnone.
  - by apply delete_missing.
Qed.

Lemma delete_then_lookup_fails_witness :
  getById 1 (snd (delete 1 Sample.twoNotes)) =
    (None, snd (delete 1 Sample.twoNotes)).
Proof.
  apply (delete_then_lookup_fails 1 Sample.twoNotes).
  unfold idsUnique. by apply (bool_decide_unpack _).
Defined.

(** X3: [delete(i)] does not affect the lookup of any other id. *)
Theorem delete_keeps_other_lookups (i j : Z) (s : Store) :
  i <> j ->
  fst (getById j (snd (delete i s))) = fst (getById j s).
Proof.
  intros Hij. rewrite !getById_find. cbn [fst].
  destruct (List.find (fun note => id note =? i) (notes s)) as [n|] eqn:Hfind.
  - destruct (delete_found i s n Hfind) as (k & Hk & Hid & _ & ->).
    cbn [snd notes]. eapply find_delete_other; [exact Hk|].
    apply Z.eqb_neq. congruence.
  - by rewrite (delete_missing i s Hfind).
Qed.

Lemma delete_keeps_other_lookups_witness :
  fst (getById 2 (snd (delete 1 Sample.twoNotes))) =
  fst (getById 2 Sample.twoNotes).
Proof. apply delete_keeps_other_lookups. lia. Defined.

Lemma find_some_first {A} (p : A -> bool) (l : list A) (x : A) :
  List.find p l = Some x <->
  exists k, l !! k = Some x /\ p x = true /\
            forall j y, (j < k)%nat -> l !! j = Some y -> p y = false.
Proof.
  induction l as [|y l IH]; cbn.
  - split; [done | intros (k & Hk & _)]. by destruct k.
  - destruct (p y) eqn:Hy.
    + split.
      * intros [= <-]. exists 0%nat. repeat split; try done. intros; lia.
      * intros (k & Hk & Hx & Hfirst). destruct k as [|k]; cbn in Hk.
        -- congruence.
        -- specialize (Hfirst 0%nat y ltac:(lia) eq_refl). congruence.
    + rewrite IH. split.
      * intros (k & Hk & Hx & Hfirst). exists (S k). repeat split; try done.
        intros [|j] z Hj Hz; cbn in Hz; [congruence|].
        apply (Hfirst j); [lia | done].
      * intros (k & Hk & Hx & Hfirst). destruct k as [|k]; cbn in Hk.
        -- congruence.
        -- exists k. repeat split; try done. intros j z Hj Hz.
           apply (Hfirst (S j)); [lia | done].
Qed.

(** X4: in a store with unique ids, [getById(i)] returns a note exactly
    when that note is stored and has id [i]: every stored note is found
    under its own id, and nothing else is. *)
Theorem getById_finds_exactly_stored (i : Z) (n : Note) (s : Store) :
  idsUnique s ->
  (fst (getById i s) = Some n <-> In n (notes s) /\ id n = i).
Proof.
  intros Huniq. rewrite getById_find. cbn [fst]. rewrite find_some_first.
  split.
  - intros (k & Hk & Hp & _). split; [|by apply Z.eqb_eq].
    apply list_elem_of_In, list_elem_of_lookup. eauto.
  - intros [Hin Hid]. apply list_elem_of_In, list_elem_of_lookup in Hin as [k Hk].
    exists k. split; [exact Hk|]. split; [by apply Z.eqb_eq|].
    intros j y Hj Hy. apply Z.eqb_neq. intros Hyi.
    assert (j = k) by (eapply unique_id_lookup; eauto; congruence). lia.
Qed.

Lemma getById_finds_exactly_stored_witness :
  fst (getById 2 Sample.twoNotes) = Some Sample.note2.
Proof.
  apply (getById_finds_exactly_stored 2 Sample.note2 Sample.twoNotes).
  - unfold idsUnique. by apply (bool_decide_unpack _).
  - split; [right; left; reflexivity | reflexivity].
Defined.

Lemma find_insert_first {A} (p : A -> bool) (l : list A) (k : nat) (x : A) :
  (k < length l)%nat -> p x = true ->
  (forall j y, (j < k)%nat -> l !! j = Some y -> p y = false) ->
  List.find p (<[k := x]> l) = Some x.
Proof.
  intros Hk Hx Hfirst.
  apply find_some_first. exists k. split; [by apply list_lookup_insert_eq|].
  split; [exact Hx|]. intros j y Hj Hy.
  rewrite list_lookup_insert_ne in Hy by lia. by eapply Hfirst.
Qed.

(** X6: an update is visible at once: when [update] returns a note,
    [getById] on the same id returns that very note afterwards. *)
Theorem update_then_getById (now : string) (i : Z) (u : UpdateData)
        (s : Store) (n : Note) :
  fst (update now i u s) = Some n ->
  fst (getById i (snd (update now i u s))) = Some n.
Proof.
  destruct (List.find (fun note => id note =? i) (notes s)) as [old|] eqn:Hfind.
  - destruct (update_found now i u s old Hfind) as (k & Hk & Hid & Hfirst & ->).
    cbn [fst snd]. intros [= <-]. rewrite getById_find. cbn [fst notes].
    apply find_insert_first.
    + by eapply lookup_lt_Some.
    + cbn [merge id]. by apply Z.eqb_eq.
    + intros j y Hj Hy. apply Z.eqb_neq. by eapply Hfirst.
  - rewrite (update_missing now i u s Hfind). discriminate.
Qed.

Lemma update_then_getById_witness :
  exists n,
    fst (getById 1 (snd (update Sample.t2 1 (setDone true) Sample.twoNotes)))
      = Some n /\ isDone n = true.
Proof.
  eexists. split.
  - apply update_then_getById. reflexivity.
  - reflexivity.
Defined.

Lemma merge_merge (old : Note) (u1 u2 : UpdateData) (t1 t2 : string) :
  merge (merge old u1 t1) u2 t2 = merge old (overlay u1 u2) t2.
Proof.
  destruct u1 as [a1 b1 c1 d1 e1 f1], u2 as [a2 b2 c2 d2 e2 f2].
  unfold merge, overlay. cbn.
  destruct a2, b2, c2, d2, e2, f2; reflexivity.
Qed.

Lemma update_update (t1 t2 : string) (i : Z) (u1 u2 : UpdateData)
      (s : Store) :
  update t2 i u2 (snd (update t1 i u1 s)) = update t2 i (overlay u1 u2) s.
Proof.
  destruct (List.find (fun note => id note =? i) (notes s)) as [old|] eqn:Hfind.
  - destruct (update_found t1 i u1 s old Hfind) as (k & Hk & Hid & Hfirst & ->).
    destruct (update_found t2 i (overlay u1 u2) s old Hfind)
      as (k' & Hk' & _ & Hfirst' & ->).
    assert (k' = k).
    { destruct (Nat.lt_trichotomy k' k) as [Hlt | [Heq | Hgt]]; [|done|].
      - by destruct (Hfirst k' old Hlt Hk').
      - by destruct (Hfirst' k old Hgt Hk). }
    subst k'. cbn [snd].
    set (mid := merge old u1 t1).
    assert (Hlen : (k < length (notes s))%nat) by (by eapply lookup_lt_Some).
    assert (Hfind2 : List.find (fun note => id note =? i)
                       (<[k := mid]> (notes s)) = Some mid).
    { apply find_insert_first; [done | by apply Z.eqb_eq |].
      intros j y Hj Hy. apply Z.eqb_neq. by eapply Hfirst. }
    destruct (update_found t2 i u2
                {| notes := <[k := mid]> (notes s); currentId := currentId s |}
                mid Hfind2) as (k2 & Hk2 & _ & Hfirst2 & ->).
    cbn [notes currentId] in *.
    assert (k2 = k).
    { destruct (Nat.lt_trichotomy k2 k) as [Hlt | [Heq | Hgt]]; [|done|].
      - rewrite list_lookup_insert_ne in Hk2 by lia.
        destruct (Hfirst k2 mid Hlt Hk2). exact Hid.
      - destruct (Hfirst2 k mid Hgt); [by apply list_lookup_insert_eq|].
        exact Hid. }
    subst k2. rewrite list_insert_insert_eq. unfold mid.
    by rewrite merge_merge.
  - rewrite (update_missing t1 i u1 s Hfind). cbn [snd].
    by rewrite !(update_missing _ i _ s Hfind).
Qed.

(** X7: two updates of the same id in a row amount to one update with the
    second payload laid over the first; only the second clock reading
    remains. *)
Theorem update_twice_overlays (t1 t2 : string) (i : Z) (u1 u2 : UpdateData)
        (s : Store) :
  update t2 i u2 (snd (update t1 i u1 s)) = update t2 i (overlay u1 u2) s.
Proof. apply update_update. Qed.

(** X8: a status operation overrides the one before it: [archive]
    followed by [unarchive] leaves exactly what [unarchive] alone leaves,
    and [markAsDone] followed by [markAsUndone] what [markAsUndone] alone
    leaves (and the other way round). *)
Theorem status_operation_overrides_previous (t1 t2 : string) (i : Z)
        (s : Store) :
  unarchive t2 i (snd (archive t1 i s)) = unarchive t2 i s /\
  archive t2 i (snd (unarchive t1 i s)) = archive t2 i s /\
  markAsUndone t2 i (snd (markAsDone t1 i s)) = markAsUndone t2 i s /\
  markAsDone t2 i (snd (markAsUndone t1 i s)) = markAsDone t2 i s.
Proof.
  unfold archive, unarchive, markAsDone, markAsUndone.
  rewrite !guarded_update.
  repeat split; rewrite update_update; reflexivity.
Qed.

Lemma update_ids (now : string) (i : Z) (u : UpdateData) (s : Store) :
  map id (notes (snd (update now i u s))) = map id (notes s).
Proof.
  destruct (List.find (fun note => id note =? i) (notes s)) as [old|] eqn:Hfind.
  - destruct (update_found now i u s old Hfind) as (k & Hk & _ & _ & ->).
    cbn [snd notes]. change (map id ?l) with (id <$> l).
    rewrite list_fmap_insert. cbn [merge id]. apply list_insert_id.
    by rewrite list_lookup_fmap, Hk.
  - by rewrite (update_missing now i u s Hfind).
Qed.

Lemma wellFormed_ids (s s' : Store) :
  map id (notes s') = map id (notes s) -> currentId s' = currentId s ->
  wellFormed s -> wellFormed s'.
Proof.
  unfold wellFormed, idsUnique. intros Hids Hc (Hu & Hc1 & Hr).
  rewrite Hids, Hc. split; [exact Hu|]. split; [exact Hc1|].
  apply (List.Forall_map id (fun z => 1 <= z < currentId s)).
  rewrite Hids.
  by apply (List.Forall_map id (fun z => 1 <= z < currentId s)).
Qed.

Lemma call_keeps_wellFormed (op : Op) (s : Store) :
  wellFormed s -> wellFormed (snd (call op s)).
Proof.
  intros Hwf.
  assert (Hupd : forall now i u, wellFormed (snd (update now i u s))).
  { intros now i u. eapply wellFormed_ids; [apply update_ids| |exact Hwf].
    apply update_counter. }
  destruct op as [f|i|t1 t2 d|now i u|i|now i|now i|now i|now i];
    cbn [call]; unfold bind, archive, unarchive, markAsDone, markAsUndone;
    rewrite ?guarded_update.
  - rewrite getAll_page. exact Hwf.
  - rewrite getById_find. exact Hwf.
  - rewrite create_unfold. unfold ret. cbn [snd].
    destruct Hwf as (Hu & Hc1 & Hr).
    unfold wellFormed, idsUnique. cbn [notes currentId].
    split; [|split; [lia|]].
    + rewrite map_app. apply NoDup_app. split; [exact Hu|]. split.
      * intros x Hx Hx'. cbn in Hx'. apply list_elem_of_In in Hx.
        apply in_map_iff in Hx as (n & <- & Hn).
        rewrite Forall_forall in Hr. apply list_elem_of_In in Hn.
        specialize (Hr n Hn). apply list_elem_of_singleton in Hx'. lia.
      * apply NoDup_singleton.
    + apply Forall_app. split.
      * eapply Forall_impl; [exact Hr|]. cbn. intros; lia.
      * constructor; [cbn; lia | constructor].
  - specialize (Hupd now i u). by destruct (update now i u s).
  - rewrite delete_unfold. cbn zeta.
    destruct (findIndex _ _ =? -1); [exact Hwf|]. unfold ret. cbn [snd].
    destruct Hwf as (Hu & Hc1 & Hr). unfold wellFormed, idsUnique.
    cbn [notes currentId]. split; [|split; [exact Hc1|]].
    + change (map id ?l) with (id <$> l). rewrite list_fmap_delete.
      eapply sublist_NoDup; [exact Hu | apply sublist_delete].
    + by apply Forall_delete.
  - specialize (Hupd now i (setArchived true)). by destruct (update now i _ s).
  - specialize (Hupd now i (setArchived false)). by destruct (update now i _ s).
  - specialize (Hupd now i (setDone true)). by destruct (update now i _ s).
  - specialize (Hupd now i (setDone false)). by destruct (update now i _ s).
Qed.

Lemma run_wellFormed (ops : list Op) (s : Store) :
  wellFormed s -> wellFormed (snd (run ops s)).
Proof.
  revert s. induction ops as [|op rest IH]; intros s Hwf; [exact Hwf|].
  rewrite run_cons. cbn [snd]. apply IH. by apply call_keeps_wellFormed.
Qed.

(** X5: every store the process can reach, by any sequence of store calls
    from the fresh store, has unique ids, all at least 1 and below the
    counter. *)
Theorem reachable_store_wellFormed (ops : list Op) :
  let s := snd (run ops initial) in
  NoDup (map id (notes s)) /\ 1 <= currentId s /\
  Forall (fun note => 1 <= id note < currentId s) (notes s).
Proof.
  apply (run_wellFormed ops initial).
  repeat split; [constructor | cbn; lia | constructor].
Qed.

Lemma filter_sublist {A} (p : A -> bool) (l : list A) :
  sublist (List.filter p l) l.
Proof.
  induction l as [|x l IH]; cbn; [constructor|].
  destruct (p x); by constructor.
Qed.

Lemma slice_is_sublist {A} (l : list A) (a b : Z) : sublist (slice l a b) l.
Proof.
  unfold slice. etrans; [apply sublist_take | apply sublist_drop].
Qed.

(** X9: whatever the filters, limit and offset (negative ones included),
    the notes of a page are stored notes in their stored order, none
    repeated or invented: the page is a sublist of the collection. *)
Theorem getAll_page_is_sublist (filters : Filters) (s : Store) :
  sublist (r_notes (fst (getAll filters s))) (notes s).
Proof.
  rewrite getAll_page. cbn [fst r_notes].
  etrans; [apply slice_is_sublist | apply filter_sublist].
Qed.

Lemma slice_nonneg {A} (l : list A) (o n : Z) :
  0 <= o -> 0 <= n ->
  slice l o (o + n) = take (Z.to_nat n) (drop (Z.to_nat o) l).
Proof.
  intros Ho Hn. unfold slice, relativeIndex.
  destruct (o <? 0) eqn:E1; [apply Z.ltb_lt in E1; lia|].
  destruct (o + n <? 0) eqn:E2; [apply Z.ltb_lt in E2; lia|].
  set (len := length l).
  destruct (Z_le_gt_dec (Z.of_nat len) o) as [Hle|Hgt].
  - rewrite !drop_ge by (subst len; lia). by rewrite !take_nil.
  - rewrite (Z.min_l o) by lia.
    destruct (Z_le_gt_dec (o + n) (Z.of_nat len)) as [Hle2|Hgt2].
    + rewrite Z.min_l by lia. f_equal. lia.
    + rewrite Z.min_r by lia.
      rewrite !take_ge; [done | |]; rewrite length_drop; subst len; lia.
Qed.

(** X10: when the effective offset and limit of a page are not negative,
    the page holds the [limit] matching notes that follow the first
    [offset] ones (fewer at the end of the list); [hasMore] is [true]
    exactly when matching notes remain after the page, and those are the
    ones a call with offset [offset + limit] starts from. *)
Theorem getAll_page_window (filters : Filters) (s : Store) :
  let page := fst (getAll filters s) in
  let found := matching filters s in
  0 <= r_offset page -> 0 <= r_limit page ->
  r_notes page =
    take (Z.to_nat (r_limit page)) (drop (Z.to_nat (r_offset page)) found) /\
  Z.of_nat (length (r_notes page)) <= r_limit page /\
  (r_hasMore page = true <->
   r_offset page + Z.of_nat (length (r_notes page)) < r_total page) /\
  drop (Z.to_nat (r_offset page)) found =
    r_notes page ++ drop (Z.to_nat (r_offset page + r_limit page)) found.
Proof.
  unfold matching. rewrite getAll_page, applyFilters_filter.
  cbn [fst r_notes r_offset r_limit r_hasMore r_total].
  set (found := List.filter (keep filters) (notes s)).
  set (o := orNum (parseInt (f_offset filters)) 0).
  set (n := orNum (parseInt (f_limit filters)) 10).
  cbn zeta. intros Ho Hn. rewrite slice_nonneg by done.
  split; [reflexivity|]. split; [rewrite length_take; lia|]. split.
  - rewrite Z.ltb_lt, length_take, length_drop. lia.
  - rewrite Z2Nat.inj_add by done. rewrite <- drop_drop.
    by rewrite take_drop.
Qed.

(** X11: [create] puts the new note at the end of every listing it
    matches and changes no listing otherwise: the matching notes after
    [create] are those before it, followed by the new note if it passes
    the filters. *)
Theorem create_appends_to_listings (t1 t2 : string) (d : NoteData)
        (filters : Filters) (s : Store) :
  let new := fst (create t1 t2 d s) in
  matching filters (snd (create t1 t2 d s)) =
  matching filters s ++ (if keep filters new then [new] else []).
Proof.
  unfold matching. rewrite create_unfold. cbn [fst snd notes].
  rewrite !applyFilters_filter, List.filter_app. cbn [List.filter].
  reflexivity.
Qed.

Lemma find_app_some {A} (p : A -> bool) (l k : list A) (x : A) :
  List.find p l = Some x -> List.find p (l ++ k) = Some x.
Proof.
  induction l as [|y l IH]; cbn; [done|]. by destruct (p y).
Qed.

(** X12: [create] never hides a stored note: every lookup by id that
    succeeded before still returns the same note after it. *)
Theorem create_keeps_lookups (t1 t2 : string) (d : NoteData) (j : Z)
        (n : Note) (s : Store) :
  fst (getById j s) = Some n ->
  fst (getById j (snd (create t1 t2 d s))) = Some n.
Proof.
  rewrite create_unfold, !getById_find. cbn [fst snd notes].
  apply find_app_some.
Qed.

Lemma create_keeps_lookups_witness :
  fst (getById 1 (snd (create Sample.t2 Sample.t2 Sample.milk Sample.twoNotes)))
  = Some Sample.note1.
Proof. apply create_keeps_lookups. reflexivity. Defined.

Lemma filter_split_length {A} (p a : A -> bool) (l : list A) :
  (length (List.filter (fun x => p x && a x) l) +
   length (List.filter (fun x => p x && negb (a x)) l))%nat =
  length (List.filter p l).
Proof.
  induction l as [|x l IH]; cbn; [done|].
  destruct (p x), (a x); cbn; lia.
Qed.

(** X13: filtering by [isArchived] splits a listing in two: for filters
    without an [isArchived] key, the totals for [isArchived: true] and
    [isArchived: false] add up to the total without it. *)
Theorem archived_totals_add_up (filters : Filters) (s : Store) :
  r_total (fst (getAll (withArchived (Some true) filters) s)) +
  r_total (fst (getAll (withArchived (Some false) filters) s)) =
  r_total (fst (getAll (withArchived None filters) s)).
Proof.
  rewrite !getAll_total.
  rewrite <- (filter_split_length (keep (withArchived None filters))
                                  isArchived (notes s)).
  rewrite Nat2Z.inj_add. f_equal; f_equal; f_equal; apply filter_ext;
    intros note; unfold keep, keepQ, keepTags, keepArchived, keepDone,
                        withArchived, matchesArchived; cbn;
    destruct (isArchived note); cbn;
    rewrite ?andb_true_r, ?andb_false_r; try reflexivity;
    destruct (match f_q filters with Some _ => _ | None => _ end),
             (match f_tags filters with Some _ => _ | None => _ end),
             (match f_isDone filters with Some _ => _ | None => _ end);
    reflexivity.
Qed.

Lemma matchesQuery_empty (note : Note) : matchesQuery "" note = true.
Proof.
  unfold matchesQuery. apply orb_true_iff. left.
  apply includes_substring. exists EmptyString, (toLowerCase (title note)).
  reflexivity.
Qed.

Lemma keepQ_lowercase (q : string) (filters : Filters) (note : Note) :
  toLowerCase "" = "" ->
  keepQ (withQ (Some q) filters) note = matchesQuery (toLowerCase q) note.
Proof.
  intros Hempty. unfold keepQ. cbn [withQ f_q].
  destruct q as [|c q]; [|reflexivity].
  cbn [String.eqb negb]. by rewrite Hempty, matchesQuery_empty.
Qed.

(** X14: the [q] filter ignores the case of the query: for every case
    mapping [toLowerCase] that maps the empty string to itself (as the
    built-in does), two queries with the same lowercase form give the same
    result. *)
Theorem getAll_query_case_insensitive (q1 q2 : string) (filters : Filters)
        (s : Store) :
  toLowerCase "" = "" ->
  toLowerCase q1 = toLowerCase q2 ->
  getAll (withQ (Some q1) filters) s = getAll (withQ (Some q2) filters) s.
Proof.
  intros Hempty Hq. rewrite !getAll_page. cbn [withQ f_limit f_offset].
  assert (Hkeep : forall note,
             keep (withQ (Some q1) filters) note =
             keep (withQ (Some q2) filters) note).
  { intros note. unfold keep.
    rewrite !keepQ_lowercase by done. by rewrite Hq. }
  by rewrite (filter_ext _ _ Hkeep).
Qed.

End StoreLaws.

(** ** Properties of the request handlers *)
Section HandlerLaws.
Import Js NotesStorage Contract Invariant Http Answer.

Context {cm : CaseMapping}.

Lemma find_sameId_NaN (l : list Note) : List.find (sameId None) l = None.
Proof. by induction l. Qed.

Lemma findIndexFrom_sameId_NaN (l : list Note) (k : Z) :
  findIndexFrom (sameId None) l k = -1.
Proof. revert k. induction l as [|x l IH]; intros k; cbn; [done | apply IH]. Qed.

Lemma getByIdNum_NaN (s : Store) : getByIdNum None s = (None, s).
Proof. unfold getByIdNum, bind, readNotes, ret. by rewrite find_sameId_NaN. Qed.

Lemma updateNum_NaN (now : string) (u : UpdateData) (s : Store) :
  updateNum now None u s = (None, s).
Proof.
  unfold updateNum, bind, readNotes, findIndex.
  by rewrite findIndexFrom_sameId_NaN.
Qed.

Lemma deleteNum_NaN (s : Store) : deleteNum None s = (false, s).
Proof.
  unfold deleteNum, bind, readNotes, findIndex.
  by rewrite findIndexFrom_sameId_NaN.
Qed.

(** X15: a request whose id segment does not parse to a number is
    answered as not-found by every handler that takes an id, and leaves
    the store as it was. *)
Theorem non_numeric_id_is_not_found (now : string) (idParam : string)
        (u : UpdateData) (s : Store) :
  parseInt (Str idParam) = None ->
  let notFound := (NextError (NotFoundError "Note"), s) in
  getNoteById idParam s = notFound /\
  updateNote now idParam u s = notFound /\
  deleteNote idParam s = notFound /\
  archiveNote now idParam s = notFound /\
  unarchiveNote now idParam s = notFound.
Proof.
  intros Hnan. cbn zeta.
  unfold getNoteById, updateNote, deleteNote, archiveNote, unarchiveNote,
    archiveNum, unarchiveNum, bind.
  rewrite Hnan, getByIdNum_NaN, updateNum_NaN, deleteNum_NaN.
  repeat split.
Qed.

Lemma non_numeric_id_is_not_found_witness :
  deleteNote "abc" Sample.twoNotes =
  (NextError (NotFoundError "Note"), Sample.twoNotes).
Proof.
  apply (non_numeric_id_is_not_found Sample.t0 "abc" (setDone true)
           Sample.twoNotes).
  reflexivity.
Defined.

(** X16: on an id segment that parses to the number [z], each handler
    answers from the result of the store operation on [z] and leaves the
    store that operation leaves: the note with status 200 or not-found for
    [getNoteById], [updateNote], [archiveNote] and [unarchiveNote]; 204
    with an empty body or not-found for [deleteNote]. *)
Theorem handlers_answer_from_store (now : string) (idParam : string) (z : Z)
        (u : UpdateData) (s : Store) :
  parseInt (Str idParam) = Some z ->
  getNoteById idParam s = (noteOrNotFound (fst (getById z s)), s) /\
  updateNote now idParam u s =
    (noteOrNotFound (fst (update now z u s)), snd (update now z u s)) /\
  deleteNote idParam s =
    (deletedOrNotFound (fst (delete z s)), snd (delete z s)) /\
  archiveNote now idParam s =
    (noteOrNotFound (fst (archive now z s)), snd (archive now z s)) /\
  unarchiveNote now idParam s =
    (noteOrNotFound (fst (unarchive now z s)), snd (unarchive now z s)).
Proof.
  intros Hz.
  unfold getNoteById, updateNote, deleteNote, archiveNote, unarchiveNote, bind.
  rewrite Hz.
  change (getByIdNum (Some z)) with (getById z).
  change (updateNum now (Some z) u) with (update now z u).
  change (deleteNum (Some z)) with (delete z).
  change (archiveNum now (Some z)) with (archive now z).
  change (unarchiveNum now (Some z)) with (unarchive now z).
  rewrite getById_find. cbn [fst].
  split; [by destruct (List.find _ (notes s))|].
  split; [destruct (update now z u s) as [[n|] s']; reflexivity|].
  split; [destruct (delete z s) as [[|] s']; reflexivity|].
  split; [destruct (archive now z s) as [[n|] s']; reflexivity|].
  destruct (unarchive now z s) as [[n|] s']; reflexivity.
Qed.

Lemma handlers_answer_from_store_witness :
  getNoteById "2px" Sample.twoNotes =
  (Json 200 (NoteBody Sample.note2), Sample.twoNotes).
Proof.
  apply (handlers_answer_from_store Sample.t0 "2px" 2 (setDone true)
           Sample.twoNotes).
  reflexivity.
Defined.

Lemma filterByFlag_none (flag : Note -> bool) (l : list Note) :
  filterByFlag flag None l = l.
Proof. reflexivity. Qed.

Lemma filterByFlag_present (flag : Note -> bool) (v : QueryValue)
      (l : list Note) :
  filterByFlag flag (Some v) l = [].
Proof. cbn. induction l as [|x l IH]; cbn; [done | exact IH]. Qed.

Lemma filterByFlag_nil (flag : Note -> bool) (v : option QueryValue) :
  filterByFlag flag v [] = [].
Proof. by destruct v. Qed.

Lemma applyQuery_typed (query : Query) (l : list Note) :
  wellTyped query ->
  applyQuery query l = inr (applyFilters (typedFilters query) l).
Proof.
  intros (Hq & Ht & Ha & Hd).
  unfold applyQuery, applyFilters, typedFilters, filterByQ, filterByTags.
  cbn [f_q f_tags f_isArchived f_isDone]. rewrite Ha, Hd.
  destruct (q_q query) as [[q|ql]|]; [| by destruct (Hq ql) |].
  - destruct (negb (String.eqb q ""));
      (destruct (q_tags query) as [[t|ts]|];
       [rewrite (Ht t eq_refl); reflexivity
       |destruct (0 <? Z.of_nat (length ts)); reflexivity
       |reflexivity]).
  - destruct (q_tags query) as [[t|ts]|];
      [rewrite (Ht t eq_refl); reflexivity
      |destruct (0 <? Z.of_nat (length ts)); reflexivity
      |reflexivity].
Qed.

(** X17: for a query whose values have the types the store expects ([q] a
    string, [tags] given several times, no flag parameter), [getAllNotes]
    answers 200 with exactly the page [getAll] computes for the
    corresponding filters, and leaves the store as it was. *)
Theorem getAllNotes_answers_getAll (query : Query) (s : Store) :
  wellTyped query ->
  getAllNotes query s = (listed (fst (getAll (typedFilters query) s)), s).
Proof.
  intros Hwt. unfold getAllNotes, getAllQuery, bind, readNotes.
  rewrite (applyQuery_typed query (notes s) Hwt).
  unfold getAll, bind, readNotes, ret. reflexivity.
Qed.

(** X18: a flag filter that arrives as a query parameter never matches:
    when [isArchived] or [isDone] is present in the query (and [q] and
    [tags] have usable types), [getAllNotes] answers 200 with no note and
    total 0, whatever the store holds. *)
Theorem getAllNotes_flag_parameter_matches_nothing (query : Query)
        (s : Store) :
  q_isArchived query <> None \/ q_isDone query <> None ->
  (forall l, q_q query <> Some (QArr l)) ->
  (forall t, q_tags query = Some (QStr t) -> t = "") ->
  exists limit offset hasMore,
    getAllNotes query s = (Json 200 (ListBody [] 0 limit offset hasMore), s).
Proof.
  intros Hflag Hq Ht.
  unfold getAllNotes, getAllQuery, bind, readNotes, ret, applyQuery.
  assert (Hqok : exists l1, filterByQ (q_q query) (notes s) = inr l1).
  { unfold filterByQ. destruct (q_q query) as [[q|ql]|];
      [destruct (negb _); eauto | by destruct (Hq ql) | eauto]. }
  destruct Hqok as [l1 ->].
  assert (Htok : exists l2, filterByTags (q_tags query) l1 = inr l2).
  { unfold filterByTags. destruct (q_tags query) as [[t|ts]|].
    - rewrite (Ht t eq_refl). cbn. eauto.
    - destruct (0 <? _); eauto.
    - eauto. }
  destruct Htok as [l2 ->].
  assert (Hnil : filterByFlag isDone (q_isDone query)
                   (filterByFlag isArchived (q_isArchived query) l2) = []).
  { destruct Hflag as [Ha | Hd].
    - destruct (q_isArchived query) as [v|]; [|done].
      rewrite filterByFlag_present. apply filterByFlag_nil.
    - destruct (q_isDone query) as [v|]; [|done].
      apply filterByFlag_present. }
  rewrite Hnil. cbn [length r_notes r_total r_limit r_offset r_hasMore].
  do 3 eexists. f_equal. f_equal. f_equal.
  unfold slice. by rewrite drop_nil, take_nil.
Qed.

(** X19: a [tags] parameter given once arrives as a string, not an array:
    if any stored note passes the [q] filter, the call throws inside the
    tag test and the handler passes a TypeError to [next]; if none does,
    the answer is the empty page.  The store is unchanged either way. *)
Theorem getAllNotes_single_tag_parameter (query : Query) (t : string)
        (s : Store) :
  q_tags query = Some (QStr t) -> t <> "" ->
  (forall l, q_q query <> Some (QArr l)) ->
  getAllNotes query s =
  (match applyFilters (withQ (f_q (typedFilters query)) noFilters) (notes s) with
   | [] =>
       Json 200 (ListBody [] 0
                   (orNum (parseInt (rawValue (q_limit query))) 10)
                   (orNum (parseInt (rawValue (q_offset query))) 0)
                   (orNum (parseInt (rawValue (q_offset query))) 0 +
                    orNum (parseInt (rawValue (q_limit query))) 10 <? 0))
   | _ :: _ => NextError (TypeError "filters.tags.some is not a function")
   end, s).
Proof.
  intros Htags Hne Hq.
  unfold getAllNotes, getAllQuery, bind, readNotes, ret, applyQuery.
  assert (Hqok : filterByQ (q_q query) (notes s) =
                 inr (applyFilters (withQ (f_q (typedFilters query)) noFilters)
                                   (notes s))).
  { unfold filterByQ, applyFilters, typedFilters, withQ, noFilters.
    cbn [f_q f_tags f_isArchived f_isDone].
    destruct (q_q query) as [[q|ql]|]; [| by destruct (Hq ql) |done].
    by destruct (negb _). }
  rewrite Hqok, Htags. unfold filterByTags.
  assert (Ht : negb (String.eqb t "") && (0 <? Z.of_nat (String.length t)) = true).
  { destruct t as [|c t]; [done|].
    change (String.eqb (String c t) "") with false. cbn [negb andb].
    apply Z.ltb_lt. cbn [String.length]. lia. }
  rewrite Ht.
  destruct (applyFilters _ (notes s)) as [|n l]; [|reflexivity].
  rewrite filterByFlag_nil, filterByFlag_nil.
  cbn [length r_notes r_total r_limit r_offset r_hasMore].
  f_equal. f_equal. f_equal. unfold slice. by rewrite drop_nil, take_nil.
Qed.

(** X20: a request that ends in [next(error)] has no effect on the store,
    for every handler and every input; [getAllNotes] and [getNoteById]
    never change the store at all, and [createNote] never ends in
    [next(error)]. *)
Theorem failed_requests_leave_store (now : string) (idParam : string)
        (u : UpdateData) (d : NoteData) (query : Query) (s : Store) :
  snd (getAllNotes query s) = s /\
  snd (getNoteById idParam s) = s /\
  (forall e, fst (updateNote now idParam u s) = NextError e ->
             snd (updateNote now idParam u s) = s) /\
  (forall e, fst (deleteNote idParam s) = NextError e ->
             snd (deleteNote idParam s) = s) /\
  (forall e, fst (archiveNote now idParam s) = NextError e ->
             snd (archiveNote now idParam s) = s) /\
  (forall e, fst (unarchiveNote now idParam s) = NextError e ->
             snd (unarchiveNote now idParam s) = s) /\
  (forall t1 t2 e, fst (createNote t1 t2 d s) <> NextError e).
Proof.
  assert (Hupd : forall i u0,
             fst (updateNum now i u0 s) = None ->
             snd (updateNum now i u0 s) = s).
  { intros [z|] u0; [|by rewrite updateNum_NaN].
    change (updateNum now (Some z) u0) with (update now z u0).
    destruct (List.find (fun note => id note =? z) (notes s)) as [old|] eqn:Hf.
    - destruct (update_found now z u0 s old Hf) as (k & _ & _ & _ & ->).
      discriminate.
    - by rewrite (update_missing now z u0 s Hf). }
  split; [|split; [|split; [|split; [|split; [|split]]]]].
  - unfold getAllNotes, getAllQuery, bind, readNotes, ret.
    by destruct (applyQuery query (notes s)).
  - unfold getNoteById, getByIdNum, bind, readNotes, ret.
    by destruct (List.find _ (notes s)).
  - intros e. unfold updateNote, bind.
    specialize (Hupd (parseInt (Str idParam)) u).
    destruct (updateNum now _ u s) as [[n'|] s']; cbn; [discriminate|].
    intros _. by apply Hupd.
  - intros e. unfold deleteNote, deleteNum, bind, readNotes, writeNotes, ret.
    destruct (findIndex _ _ =? -1); cbn; [done | discriminate].
  - intros e. unfold archiveNote, archiveNum, getByIdNum, bind, readNotes, ret.
    destruct (List.find _ (notes s)) as [found|]; [|done].
    specialize (Hupd (parseInt (Str idParam)) (setArchived true)).
    destruct (updateNum now _ _ s) as [[n'|] s']; cbn; [discriminate|].
    intros _. by apply Hupd.
  - intros e. unfold unarchiveNote, unarchiveNum, getByIdNum, bind, readNotes, ret.
    destruct (List.find _ (notes s)) as [found|]; [|done].
    specialize (Hupd (parseInt (Str idParam)) (setArchived false)).
    destruct (updateNum now _ _ s) as [[n'|] s']; cbn; [discriminate|].
    intros _. by apply Hupd.
  - intros t1 t2 e. unfold createNote, bind. rewrite create_unfold.
    discriminate.
Qed.

(** X21: in a store with unique ids, once [deleteNote] has answered 204
    the note is gone for the handlers too: [getNoteById] and a second
    [deleteNote] on the same id segment are answered as not-found. *)
Theorem deleteNote_then_not_found (idParam : string) (s : Store) :
  idsUnique s ->
  fst (deleteNote idParam s) = Send 204 ->
  let s' := snd (deleteNote idParam s) in
  getNoteById idParam s' = (NextError (NotFoundError "Note"), s') /\
  deleteNote idParam s' = (NextError (NotFoundError "Note"), s').
Proof.
  intros Huniq. unfold deleteNote, getNoteById, bind.
  destruct (parseInt (Str idParam)) as [z|].
  - change (deleteNum (Some z)) with (delete z).
    change (getByIdNum (Some z)) with (getById z).
    pose proof (delete_find_none z s Huniq) as Hnone.
    destruct (delete z s) as [[|] s'] eqn:Hdel; cbn [fst snd] in *;
      [|discriminate].
    intros _. unfold ret. cbn [fst snd]. rewrite getById_find. cbn [fst].
    rewrite Hnone.
    by rewrite (delete_missing z s' Hnone).
  - rewrite deleteNum_NaN. discriminate.
Qed.

Lemma deleteNote_then_not_found_witness :
  getNoteById "1" (snd (deleteNote "1" Sample.twoNotes)) =
  (NextError (NotFoundError "Note"), snd (deleteNote "1" Sample.twoNotes)).
Proof.
  apply (deleteNote_then_not_found "1" Sample.twoNotes).
  - unfold idsUnique. by apply (bool_decide_unpack _).
  - reflexivity.
Defined.

End HandlerLaws.

(** ** Concrete evaluations

    The case mapping is [Sample.asciiCase] here, on ASCII data.  The
    evaluations without a [q] filter never call it. *)
Section Evaluations.
Import Js NotesStorage Contract Invariant Http Answer Sample.

Example includes_samples :
  (includes (toLowerCase "Write REPORT") (toLowerCase "Report"),
   includes "foobar" "foo", includes "has foo inside" "foo",
   includes "neither" "foo", includes "" "")
  = (true, true, true, false, true).
Proof. reflexivity. Qed.

(** C1, as stated, fails: with [tags: []] present the note [note1] is
    returned and counted, although it shares no tag with the empty
    sequence. *)
Lemma getAll_empty_tags_not_as_stated :
  let filters := withTags (Some []) noFilters in
  let page := fst (getAll filters Sample.twoNotes) in
  In Sample.note1 (r_notes page) /\ r_total page = 2 /\
  ~ passesAsStated filters Sample.note1.
Proof.
  repeat split.
  - left. reflexivity.
  - intros (_ & Htags & _). destruct (Htags [] eq_refl) as (t & [] & _).
Qed.

Lemma getAll_filters_conjunction_witness :
  exists selects : Note -> bool,
    selects note1 = false /\ selects note2 = true /\
    r_total (fst (getAll (withQ (Some "FOO") noFilters) twoNotes)) =
      Z.of_nat (length (List.filter selects (notes twoNotes))).
Proof.
  destruct (getAll_filters_conjunction twoNotes (withQ (Some "FOO") noFilters))
    as (selects & Hsel & Htotal & _).
  - reflexivity.
  - exists selects. split; [|split; [|exact Htotal]].
    + destruct (selects note1) eqn:E; [|reflexivity].
      apply Hsel in E. destruct E as (Hq & _).
      destruct (Hq "FOO" eq_refl) as [H | H];
        apply includes_substring in H; discriminate.
    + apply Hsel. repeat split; try discriminate.
      intros q [= <-]. right. apply includes_substring. reflexivity.
Defined.

Lemma getAll_empty_tags_ignored_witness :
  getAll (withTags (Some []) noFilters) Sample.twoNotes =
  getAll (withTags None (withTags (Some []) noFilters)) Sample.twoNotes /\
  r_total (fst (getAll (withTags (Some []) noFilters) Sample.twoNotes)) = 2.
Proof.
  destruct (getAll_empty_tags_ignored Sample.twoNotes
              (withTags (Some []) noFilters)) as [Hsame Htotal].
  - reflexivity.
  - split; [exact Hsame | rewrite Htotal; reflexivity].
Defined.

Lemma getAll_limit_offset_fallback_witness :
  getAll (withLimit (Str "abc") noFilters) Sample.twoNotes =
  getAll (withLimit (Num 10) (withLimit (Str "abc") noFilters)) Sample.twoNotes /\
  r_offset (fst (getAll (withOffset (Str "-1") noFilters) Sample.twoNotes)) = -1.
Proof.
  split.
  - apply (proj1 (getAll_limit_offset_fallback Sample.twoNotes
                    (withLimit (Str "abc") noFilters))).
    reflexivity.
  - apply (proj1 (proj2 (proj2 (proj2 (getAll_limit_offset_fallback
             Sample.twoNotes (withOffset (Str "-1") noFilters))))) (-1)).
    + reflexivity.
    + lia.
Defined.

(** C3, as stated, fails: the negative limit [-1] does not behave as 10
    (it drops the last matching note), and the negative offset [-1] does
    not behave as 0 (it keeps only the last one). *)
Lemma getAll_negative_limit_not_default :
  r_notes (fst (getAll (withLimit (Str "-1") noFilters) Sample.twoNotes))
    = [Sample.note1] /\
  r_notes (fst (getAll (withLimit (Num 10) noFilters) Sample.twoNotes))
    = [Sample.note1; Sample.note2] /\
  r_notes (fst (getAll (withOffset (Num (-1)) noFilters) Sample.twoNotes))
    = [Sample.note2] /\
  r_notes (fst (getAll (withOffset (Num 0) noFilters) Sample.twoNotes))
    = [Sample.note1; Sample.note2] /\
  fst (getAll (withLimit (Str "-1") noFilters) Sample.twoNotes) <>
  fst (getAll (withLimit (Num 10) noFilters) Sample.twoNotes).
Proof. repeat split. discriminate. Qed.

Example query_and_tags_samples :
  let q s := {| f_q := Some s; f_tags := None; f_isArchived := None;
                f_isDone := None; f_limit := Undefined;
                f_offset := Undefined |} in
  (id <$> r_notes (fst (getAll (q "foo") Sample.twoNotes)),
   id <$> r_notes (fst (getAll (q "report") Sample.twoNotes)),
   id <$> r_notes (fst (getAll (withTags (Some ["work"]) noFilters)
                               Sample.twoNotes)),
   id <$> r_notes (fst (getAll (withTags (Some ["home"; "errand"]) noFilters)
                               Sample.twoNotes)))
  = ([2], [2], [2], [1]).
Proof. reflexivity. Qed.

Lemma getAll_page_window_witness :
  r_notes (fst (getAll (withOffset (Str "1") (withLimit (Str "1") noFilters))
                       Sample.twoNotes)) = [Sample.note2].
Proof.
  destruct (getAll_page_window
              (withOffset (Str "1") (withLimit (Str "1") noFilters))
              Sample.twoNotes) as (Hpage & _).
  - vm_compute. discriminate.
  - vm_compute. discriminate.
  - rewrite Hpage. reflexivity.
Defined.

Lemma getAll_query_case_insensitive_witness :
  getAll (withQ (Some "REPORT") noFilters) Sample.twoNotes =
  getAll (withQ (Some "report") noFilters) Sample.twoNotes.
Proof. apply getAll_query_case_insensitive; reflexivity. Defined.

Lemma getAllNotes_answers_getAll_witness :
  getAllNotes (queryTags (QArr ["work"; "home"])) Sample.twoNotes =
  (Json 200 (ListBody [Sample.note2] 1 10 0 false), Sample.twoNotes).
Proof.
  rewrite getAllNotes_answers_getAll; [reflexivity|].
  repeat split; intros; discriminate.
Defined.

Lemma getAllNotes_flag_parameter_matches_nothing_witness :
  fst (getById 1 archivedSample) <> None /\
  exists limit offset hasMore,
    getAllNotes (queryArchived "true") archivedSample =
    (Json 200 (ListBody [] 0 limit offset hasMore), archivedSample).
Proof.
  split; [discriminate|].
  apply getAllNotes_flag_parameter_matches_nothing.
  - left. discriminate.
  - intros l. discriminate.
  - intros t. discriminate.
Defined.

Lemma getAllNotes_single_tag_parameter_witness :
  getAllNotes (queryTags (QStr "work")) Sample.twoNotes =
  (NextError (TypeError "filters.tags.some is not a function"),
   Sample.twoNotes).
Proof.
  rewrite (getAllNotes_single_tag_parameter (queryTags (QStr "work")) "work");
    [reflexivity | reflexivity | discriminate | intros l; discriminate].
Defined.

End Evaluations.
